(** * API security scanner: the test engine of [src/utils/apiTester.ts]
    and [src/utils/securityTests.ts]

    A shallow embedding of the scan orchestrator [runApiTest], the
    serialization guard [makeSerializable], the request helper
    [safeAxiosRequest] and the five probes, with the properties the
    specification states about them.

    JavaScript values live in a store: a primitive is a value by itself,
    an object or an array is a reference into a heap, so that cyclic
    structures exist and sharing is visible.  Exceptions are explicit
    ([outcome]); the engine's finite call stack is the [stack] argument of
    [makeSerializable], whose exhaustion raises the engine's [RangeError].
    Logging ([console.error]) has no effect on a scan and is left out. *)

From Stdlib Require Import ZArith Ascii.
From stdpp Require Import base list strings gmap pretty sorting.

Set Warnings "-register-all".

Local Open Scope string_scope.
Local Open Scope Z_scope.
Local Open Scope list_scope.

(** ** Values and the store *)

Abbreviation addr := nat (only parsing).

(** Numbers are the integer-valued ones (an HTTP status, a duration);
    symbols, getters, proxies and [toJSON] methods are not modelled.  A
    function is an opaque value: nothing in the engine calls a function it
    finds in a response. *)
Inductive jsval : Type :=
| JUndefined
| JNull
| JBool (b : bool)
| JNum (n : Z)
| JBigInt (n : Z)
| JStr (s : string)
| JFunction
| JRef (a : addr).

(** Own enumerable properties of a plain object, in enumeration order. *)
Inductive jsobj : Type :=
| JArray (items : list jsval)
| JObject (props : list (string * jsval)).

Abbreviation heap := (list jsobj) (only parsing).

#[global] Instance jsval_eq_dec : EqDecision jsval.
Proof. solve_decision. Defined.

Record AxiosResponse := {
  status : Z;
  statusText : string;
  headers : jsval;
  data : jsval
}.

(** Every value the engine throws or catches is an [Error] object:
    [error instanceof Error] holds, [name] tells the class. *)
Record JsError := {
  error_name : string;
  message : string;
  isAxiosError : bool;
  response : option AxiosResponse
}.

Definition mkError (name msg : string) : JsError :=
  {| error_name := name; message := msg; isAxiosError := false; response := None |}.

Definition TypeError (msg : string) : JsError := mkError "TypeError" msg.
Definition RangeError_stack : JsError :=
  mkError "RangeError" "Maximum call stack size exceeded".

Inductive outcome (A : Type) : Type :=
| Ret (a : A)
| Throw (e : JsError).
Arguments Ret {A} a.
Arguments Throw {A} e.

(** Computations that read and extend the store and may throw. *)
Definition Js (A : Type) : Type := heap → heap * outcome A.

Definition ret {A} (a : A) : Js A := λ h, (h, Ret a).
Definition throw {A} (e : JsError) : Js A := λ h, (h, Throw e).
Definition bind {A B} (m : Js A) (k : A → Js B) : Js B :=
  λ h, match m h with
       | (h', Ret a) => k a h'
       | (h', Throw e) => (h', Throw e)
       end.
Definition try_catch {A} (m : Js A) (handler : JsError → Js A) : Js A :=
  λ h, match m h with
       | (h', Ret a) => (h', Ret a)
       | (h', Throw e) => handler e h'
       end.
Definition lift {A} (o : heap → outcome A) : Js A := λ h, (h, o h).

Notation "x <~ m ;; k" := (bind m (λ x, k))
  (at level 100, m at next level, right associativity).

(** [new] object or array literal: a fresh reference. *)
Definition alloc (o : jsobj) : Js jsval := λ h, (h ++ [o], Ret (JRef (length h))).

(** [result[key] = v] on the property list of an object. *)
Fixpoint set_prop (key : string) (v : jsval) (props : list (string * jsval))
  : list (string * jsval) :=
  match props with
  | [] => [(key, v)]
  | (k, w) :: rest =>
      if decide (k = key) then (k, v) :: rest else (k, w) :: set_prop key v rest
  end.

Fixpoint get_prop (key : string) (props : list (string * jsval)) : jsval :=
  match props with
  | [] => JUndefined
  | (k, w) :: rest => if decide (k = key) then w else get_prop key rest
  end.

(** ** Built-ins the engine relies on *)

Definition typeof (v : jsval) : string :=
  match v with
  | JUndefined => "undefined"
  | JNull => "object"
  | JBool _ => "boolean"
  | JNum _ => "number"
  | JBigInt _ => "bigint"
  | JStr _ => "string"
  | JFunction => "function"
  | JRef _ => "object"
  end.

(** ToBoolean. *)
Definition truthy (v : jsval) : bool :=
  match v with
  | JUndefined | JNull => false
  | JBool b => b
  | JNum n => negb (n =? 0)
  | JBigInt n => negb (n =? 0)
  | JStr s => negb (String.eqb s "")
  | JFunction | JRef _ => true
  end.

Definition is_nullish (v : jsval) : bool :=
  match v with JUndefined | JNull => true | _ => false end.

Definition Z_to_string (n : Z) : string := pretty n.

Definition hex_digit (n : N) : ascii :=
  match n with
  | 0%N => "0" | 1%N => "1" | 2%N => "2" | 3%N => "3" | 4%N => "4"
  | 5%N => "5" | 6%N => "6" | 7%N => "7" | 8%N => "8" | 9%N => "9"
  | 10%N => "a" | 11%N => "b" | 12%N => "c" | 13%N => "d" | 14%N => "e"
  | _ => "f"
  end%char.

(** QuoteJSONString on byte strings. *)
Definition json_escape (c : ascii) : string :=
  let n := N_of_ascii c in
  if (n =? 8)%N then "\b"
  else if (n =? 9)%N then "\t"
  else if (n =? 10)%N then "\n"
  else if (n =? 12)%N then "\f"
  else if (n =? 13)%N then "\r"
  else if (n =? 34)%N then String "\" (String "034" EmptyString)
  else if (n =? 92)%N then "\\"
  else if (n <? 32)%N then
    "\u00" +:+ String (hex_digit (n / 16)) (String (hex_digit (n mod 16)) EmptyString)
  else String c EmptyString.

Fixpoint json_escape_all (s : string) : string :=
  match s with
  | EmptyString => EmptyString
  | String c rest => json_escape c +:+ json_escape_all rest
  end.

Definition dquote : string := String "034" EmptyString.

Definition json_quote (s : string) : string :=
  dquote +:+ json_escape_all s +:+ dquote.

Fixpoint join (sep : string) (parts : list string) : string :=
  match parts with
  | [] => ""
  | [p] => p
  | p :: rest => p +:+ sep +:+ join sep rest
  end.

(** Sequencing of pure, possibly throwing steps over a list. *)
Fixpoint traverse {A B} (f : A → outcome B) (l : list A) : outcome (list B) :=
  match l with
  | [] => Ret []
  | x :: xs =>
      match f x with
      | Throw e => Throw e
      | Ret y =>
          match traverse f xs with
          | Throw e => Throw e
          | Ret ys => Ret (y :: ys)
          end
      end
  end.

Definition cyclic_error : JsError := TypeError "Converting circular structure to JSON".
Definition bigint_error : JsError := TypeError "Do not know how to serialize a BigInt".

(** SerializeJSONProperty: [None] is JavaScript's [undefined] (the value is
    left out by its holder).  [path] is the serializer's stack of objects
    being written, a value found on it is a cycle.  [fuel] bounds the
    nesting; [JSON_stringify] gives one more than the number of objects in
    the store, which no cycle-free path exceeds. *)
Fixpoint SerializeJSONProperty (fuel : nat) (h : heap) (path : list addr) (v : jsval)
  : outcome (option string) :=
  match v with
  | JUndefined | JFunction => Ret None
  | JNull => Ret (Some "null")
  | JBool b => Ret (Some (if b then "true" else "false"))
  | JNum n => Ret (Some (Z_to_string n))
  | JStr s => Ret (Some (json_quote s))
  | JBigInt _ => Throw bigint_error
  | JRef a =>
      if decide (a ∈ path) then Throw cyclic_error else
      match fuel with
      | O => Throw cyclic_error
      | S fuel' =>
          match h !! a with
          | None => Throw (TypeError "dangling reference")
          | Some (JArray items) =>
              match traverse (SerializeJSONProperty fuel' h (a :: path)) items with
              | Throw e => Throw e
              | Ret parts =>
                  Ret (Some ("[" +:+ join "," (default "null" <$> parts) +:+ "]"))
              end
          | Some (JObject props) =>
              match traverse (λ kv, match SerializeJSONProperty fuel' h (a :: path) kv.2 with
                                    | Throw e => Throw e
                                    | Ret None => Ret None
                                    | Ret (Some s) => Ret (Some (json_quote kv.1 +:+ ":" +:+ s))
                                    end) props with
              | Throw e => Throw e
              | Ret members => Ret (Some ("{" +:+ join "," (omap id members) +:+ "}"))
              end
          end
      end
  end.

Definition JSON_stringify (h : heap) (v : jsval) : outcome (option string) :=
  SerializeJSONProperty (S (length h)) h [] v.

(** [String(obj)] where the guard uses it: on a primitive. *)
Definition String_of_primitive (v : jsval) : string :=
  match v with
  | JUndefined => "undefined"
  | JNull => "null"
  | JBool b => if b then "true" else "false"
  | JNum n => Z_to_string n
  | JBigInt n => Z_to_string n
  | JStr s => s
  | JFunction => "function () { [native code] }"
  | JRef _ => "[object Object]"
  end.

(** ** The serialization guard: [makeSerializable] *)

(** [obj.map(item => makeSerializable(item))]: left to right, the first
    exception aborts the map. *)
Fixpoint Array_map {A B} (f : A → Js B) (items : list A) : Js (list B) :=
  match items with
  | [] => ret []
  | x :: xs => y <~ f x ;; ys <~ Array_map f xs ;; ret (y :: ys)
  end.

Definition placeholder (v : jsval) : jsval :=
  JStr ("[Non-serializable " +:+ typeof v +:+ "]").

(** The [for (const key in obj)] loop with its per-key [try]/[catch]; the
    fields of [result] so far are threaded through. *)
Fixpoint sanitize_props (f : jsval → Js jsval) (props result : list (string * jsval))
  : Js (list (string * jsval)) :=
  match props with
  | [] => ret result
  | (key, value) :: rest =>
      v <~ try_catch (f value) (λ _, ret (placeholder value)) ;;
      sanitize_props f rest (set_prop key v result)
  end.

(** [stack] is the number of nested calls the engine's stack still holds.
    [result] is local until it is returned, so the object is put in the
    store when the loop is done; an unknown reference has no property to
    enumerate. *)
Fixpoint makeSerializable (stack : nat) (obj : jsval) : Js jsval :=
  match stack with
  | O => throw RangeError_stack
  | S stack' =>
      if is_nullish obj then ret obj else
      try_catch
        (_ <~ lift (λ h, JSON_stringify h obj) ;; ret obj)
        (λ _,
           match obj with
           | JRef a =>
               λ h, match h !! a with
                    | Some (JArray items) =>
                        (items' <~ Array_map (makeSerializable stack') items ;;
                         alloc (JArray items')) h
                    | Some (JObject props) =>
                        (result <~ sanitize_props (makeSerializable stack') props [] ;;
                         alloc (JObject result)) h
                    | None => alloc (JObject []) h
                    end
           | _ => ret (JStr (String_of_primitive obj))
           end)
  end.

(** ** Text helpers *)

Definition chars (s : string) : list ascii := String.list_ascii_of_string s.
Definition text (l : list ascii) : string := String.string_of_list_ascii l.

Fixpoint starts_with (p s : list ascii) : bool :=
  match p, s with
  | [], _ => true
  | _ :: _, [] => false
  | a :: p', b :: s' => Ascii.eqb a b && starts_with p' s'
  end.

Fixpoint includes_chars (needle hay : list ascii) : bool :=
  starts_with needle hay ||
  match hay with
  | [] => false
  | _ :: hay' => includes_chars needle hay'
  end.

(** [String.prototype.includes]. *)
Definition String_includes (hay needle : string) : bool :=
  includes_chars (chars needle) (chars hay).

Definition in_range (lo hi c : ascii) : bool :=
  (N_of_ascii lo <=? N_of_ascii c)%N && (N_of_ascii c <=? N_of_ascii hi)%N.

Definition is_digit (c : ascii) : bool := in_range "0" "9" c.
Definition is_upper (c : ascii) : bool := in_range "A" "Z" c.
Definition is_lower (c : ascii) : bool := in_range "a" "z" c.
Definition is_alpha (c : ascii) : bool := is_upper c || is_lower c.

(** ** [JSON.parse], as far as the engine uses it

    The engine parses the request body and hands the value to the HTTP
    client untouched, so the parsed value is a tree whose scalars keep
    their source text (a string keeps its escapes, a number its digits). *)

Inductive json : Type :=
| JSnull
| JSbool (b : bool)
| JSnumber (literal : string)
| JSstring (raw : string)
| JSarray (items : list json)
| JSobject (members : list (string * json)).

Definition is_ws (c : ascii) : bool :=
  let n := N_of_ascii c in
  (n =? 32)%N || (n =? 9)%N || (n =? 10)%N || (n =? 13)%N.

Fixpoint skip_ws (s : list ascii) : list ascii :=
  match s with
  | c :: s' => if is_ws c then skip_ws s' else s
  | [] => []
  end.

Fixpoint take_digits (s : list ascii) : list ascii * list ascii :=
  match s with
  | c :: s' =>
      if is_digit c then let '(d, r) := take_digits s' in (c :: d, r) else ([], s)
  | [] => ([], [])
  end.

Definition is_hex (c : ascii) : bool :=
  is_digit c || in_range "a" "f" c || in_range "A" "F" c.

(** The characters of a string literal after its opening quote; gives the
    raw contents and what follows the closing quote. *)
Fixpoint scan_string (s : list ascii) : option (list ascii * list ascii) :=
  match s with
  | [] => None
  | c :: s' =>
      if Ascii.eqb c "034" then Some ([], s')
      else if Ascii.eqb c "\" then
        match s' with
        | e :: s'' =>
            if Ascii.eqb e "u" then
              match s'' with
              | a :: b :: c' :: d :: s3 =>
                  if is_hex a && is_hex b && is_hex c' && is_hex d then
                    match scan_string s3 with
                    | Some (body, r) => Some (c :: e :: a :: b :: c' :: d :: body, r)
                    | None => None
                    end
                  else None
              | _ => None
              end
            else if existsb (Ascii.eqb e) (chars "\/bfnrt" ++ ["034"%char]) then
              match scan_string s'' with
              | Some (body, r) => Some (c :: e :: body, r)
              | None => None
              end
            else None
        | [] => None
        end
      else if (N_of_ascii c <? 32)%N then None
      else
        match scan_string s' with
        | Some (body, r) => Some (c :: body, r)
        | None => None
        end
  end.

(** [-? int frac? exp?] with no leading zero. *)
Definition scan_number (s : list ascii) : option (list ascii * list ascii) :=
  let '(sign, s1) := match s with
                     | c :: r => if Ascii.eqb c "-" then ([c], r) else ([], s)
                     | [] => ([], s)
                     end in
  let '(int, s2) := take_digits s1 in
  match int with
  | [] => None
  | d :: ds =>
      if Ascii.eqb d "0" && negb (bool_decide (ds = [])) then None else
      let frac :=
        match s2 with
        | c :: r =>
            if Ascii.eqb c "." then
              match take_digits r with
              | ([], _) => None
              | (f, r') => Some (c :: f, r')
              end
            else Some ([], s2)
        | [] => Some ([], s2)
        end in
      match frac with
      | None => None
      | Some (f, s3) =>
          let exp :=
            match s3 with
            | c :: r =>
                if Ascii.eqb c "e" || Ascii.eqb c "E" then
                  let '(sg, r1) := match r with
                                   | x :: r' =>
                                       if Ascii.eqb x "+" || Ascii.eqb x "-"
                                       then ([x], r') else ([], r)
                                   | [] => ([], r)
                                   end in
                  match take_digits r1 with
                  | ([], _) => None
                  | (ex, r2) => Some (c :: sg ++ ex, r2)
                  end
                else Some ([], s3)
            | [] => Some ([], s3)
            end in
          match exp with
          | None => None
          | Some (ex, s4) => Some (sign ++ int ++ f ++ ex, s4)
          end
      end
  end.

(** One JSON value at the head of the input (after white space); [fuel]
    bounds nesting and the length of element lists. *)
Fixpoint parse_value (fuel : nat) (s : list ascii) : option (json * list ascii) :=
  match fuel with
  | O => None
  | S n =>
      let s := skip_ws s in
      if starts_with (chars "null") s then Some (JSnull, drop 4 s)
      else if starts_with (chars "true") s then Some (JSbool true, drop 4 s)
      else if starts_with (chars "false") s then Some (JSbool false, drop 5 s)
      else
        match s with
        | [] => None
        | c :: r =>
            if Ascii.eqb c "034" then
              match scan_string r with
              | Some (body, r') => Some (JSstring (text body), r')
              | None => None
              end
            else if Ascii.eqb c "[" then
              match skip_ws r with
              | c' :: r' =>
                  if Ascii.eqb c' "]" then Some (JSarray [], r') else
                  (fix elements (k : nat) (s : list ascii) (acc : list json) :=
                     match k with
                     | O => None
                     | S k' =>
                         match parse_value n s with
                         | None => None
                         | Some (v, s1) =>
                             match skip_ws s1 with
                             | d :: s2 =>
                                 if Ascii.eqb d "," then elements k' s2 (acc ++ [v])
                                 else if Ascii.eqb d "]" then Some (JSarray (acc ++ [v]), s2)
                                 else None
                             | [] => None
                             end
                         end
                     end) n r []
              | [] => None
              end
            else if Ascii.eqb c "{" then
              match skip_ws r with
              | c' :: r' =>
                  if Ascii.eqb c' "}" then Some (JSobject [], r') else
                  (fix members (k : nat) (s : list ascii) (acc : list (string * json)) :=
                     match k with
                     | O => None
                     | S k' =>
                         match skip_ws s with
                         | q :: s0 =>
                             if Ascii.eqb q "034" then
                               match scan_string s0 with
                               | None => None
                               | Some (key, s1) =>
                                   match skip_ws s1 with
                                   | colon :: s2 =>
                                       if Ascii.eqb colon ":" then
                                         match parse_value n s2 with
                                         | None => None
                                         | Some (v, s3) =>
                                             match skip_ws s3 with
                                             | d :: s4 =>
                                                 if Ascii.eqb d "," then
                                                   members k' s4 (acc ++ [(text key, v)])
                                                 else if Ascii.eqb d "}" then
                                                   Some (JSobject (acc ++ [(text key, v)]), s4)
                                                 else None
                                             | [] => None
                                             end
                                         end
                                       else None
                                   | [] => None
                                   end
                               end
                             else None
                         | [] => None
                         end
                     end) n r []
              | [] => None
              end
            else
              match scan_number s with
              | Some (lit, r') => Some (JSnumber (text lit), r')
              | None => None
              end
        end
  end.

Definition SyntaxError : JsError := mkError "SyntaxError" "Unexpected token in JSON".

(** [JSON.parse(str)]: the whole input is one value, or a [SyntaxError]
    (whose text is the engine's; one text stands for all here). *)
Definition JSON_parse (str : string) : outcome json :=
  let s := chars str in
  match parse_value (S (length s)) s with
  | Some (v, rest) =>
      match skip_ws rest with
      | [] => Ret v
      | _ :: _ => Throw SyntaxError
      end
  | None => Throw SyntaxError
  end.

(** Helper function to safely parse JSON. *)
Definition safeJsonParse (str : string) : json :=
  match JSON_parse str with
  | Ret v => v
  | Throw _ => JSnull
  end.

(** ** Regular expressions, as far as the pattern table uses them

    A backtracking matcher in continuation-passing style, with the
    priorities of the JavaScript engine: the left alternative first, a
    greedy star takes one more turn before it gives up, a lazy star gives
    up before it takes one more turn.  [prev] is the character before the
    current position, which the word-boundary assertion needs. *)

Inductive regex : Type :=
| REmpty
| RSet (member : ascii → bool)
| RSeq (r1 r2 : regex)
| RAlt (r1 r2 : regex)
| RStar (greedy : bool) (r : regex)
| RWordBoundary.

Definition is_word (c : ascii) : bool := is_alpha c || is_digit c || Ascii.eqb c "_".

Definition word_at (c : option ascii) : bool :=
  match c with Some c => is_word c | None => false end.

Definition first_success {A} (x y : option A) : option A :=
  match x with Some a => Some a | None => y end.

Fixpoint rmatch (r : regex) (prev : option ascii) (s : list ascii)
    (k : option ascii → list ascii → option (list ascii)) {struct r}
  : option (list ascii) :=
  match r with
  | REmpty => k prev s
  | RSet member =>
      match s with
      | c :: s' => if member c then k (Some c) s' else None
      | [] => None
      end
  | RSeq r1 r2 => rmatch r1 prev s (λ p' s', rmatch r2 p' s' k)
  | RAlt r1 r2 => first_success (rmatch r1 prev s k) (rmatch r2 prev s k)
  | RStar greedy body =>
      (fix loop (fuel : nat) (prev : option ascii) (s : list ascii) :=
         match fuel with
         | O => k prev s
         | S fuel' =>
             let again :=
               rmatch body prev s
                 (λ p' s', if (length s' <? length s)%nat then loop fuel' p' s' else None) in
             if greedy then first_success again (k prev s)
             else first_success (k prev s) again
         end) (length s) prev s
  | RWordBoundary =>
      if xorb (word_at prev) (word_at (head s)) then k prev s else None
  end.

(** The match that starts at the current position, if any: what is left
    of the input after it. *)
Definition match_here (r : regex) (prev : option ascii) (s : list ascii)
  : option (list ascii) :=
  rmatch r prev s (λ _ rest, Some rest).

(** All matches of a global pattern, left to right, each search resuming
    where the last match ended (one further on after an empty match). *)
Fixpoint match_all (r : regex) (fuel : nat) (prev : option ascii) (s : list ascii)
  : list string :=
  match fuel with
  | O => []
  | S fuel' =>
      match match_here r prev s with
      | Some rest =>
          let matched := take (length s - length rest)%nat s in
          match matched, s with
          | [], [] => [text matched]
          | [], c :: s' => text matched :: match_all r fuel' (Some c) s'
          | _ :: _, _ => text matched :: match_all r fuel' (last matched) rest
          end
      | None =>
          match s with
          | [] => []
          | c :: s' => match_all r fuel' (Some c) s'
          end
      end
  end.

(** [str.match(pattern)] for a pattern with the [g] flag: [None] is
    [null]. *)
Definition String_match (str : string) (pattern : regex) : option (list string) :=
  match match_all pattern (S (length (chars str))) None (chars str) with
  | [] => None
  | ms => Some ms
  end.

(** *** Pattern syntax *)

Definition lit (c : ascii) : regex := RSet (Ascii.eqb c).

Definition to_lower (c : ascii) : ascii :=
  if is_upper c then ascii_of_N (N_of_ascii c + 32) else c.

(** A letter under the [i] flag. *)
Definition lit_i (c : ascii) : regex := RSet (λ x, Ascii.eqb (to_lower x) (to_lower c)).

Definition word (ignore_case : bool) (w : string) : regex :=
  foldr (λ c r, RSeq (if ignore_case then lit_i c else lit c) r) REmpty (chars w).

Definition one_of (s : string) : regex := RSet (λ c, existsb (Ascii.eqb c) (chars s)).
Definition opt (r : regex) : regex := RAlt r REmpty.
Definition plus (r : regex) : regex := RSeq r (RStar true r).

Fixpoint times (n : nat) (r : regex) : regex :=
  match n with O => REmpty | S n' => RSeq r (times n' r) end.

(** [r{0,n}], greedy. *)
Fixpoint up_to (n : nat) (r : regex) : regex :=
  match n with O => REmpty | S n' => opt (RSeq r (up_to n' r)) end.

Definition between (lo hi : nat) (r : regex) : regex := RSeq (times lo r) (up_to (hi - lo) r).
Definition at_least (lo : nat) (r : regex) : regex := RSeq (times lo r) (RStar true r).

Definition seq_of (rs : list regex) : regex := foldr RSeq REmpty rs.

Definition quote_chars : list ascii := ["034"; "'"]%char.

(** [\s] on byte strings. *)
Definition is_space (c : ascii) : bool :=
  let n := N_of_ascii c in
  (n =? 32)%N || ((9 <=? n)%N && (n <=? 13)%N).

Definition digit : regex := RSet is_digit.
Definition space : regex := RSet is_space.
Definition quote : regex := RSet (λ c, existsb (Ascii.eqb c) quote_chars).

(** [/\b[A-Za-z0-9._%+-]+@[A-Za-z0-9.-]+\.[A-Za-z]{2,}\b/g] *)
Definition email_pattern : regex :=
  seq_of [RWordBoundary;
          plus (RSet (λ c, is_alpha c || is_digit c || existsb (Ascii.eqb c) (chars "._%+-")));
          lit "@";
          plus (RSet (λ c, is_alpha c || is_digit c || existsb (Ascii.eqb c) (chars ".-")));
          lit ".";
          at_least 2 (RSet is_alpha);
          RWordBoundary].

(** [/\b(?:\d[ -]*?){13,16}\b/g] *)
Definition credit_card_pattern : regex :=
  seq_of [RWordBoundary;
          between 13 16 (RSeq digit (RStar false (one_of " -")));
          RWordBoundary].

(** [/<name>Q?\s*?:\s*?Q?N+/gi], where Q is the class of the two quote
    characters and N the class of everything but a quote, a comma or
    white space. *)
Definition key_value_pattern (name : string) : regex :=
  seq_of [word true name;
          opt quote;
          RStar false space;
          lit ":";
          RStar false space;
          opt quote;
          plus (RSet (λ c, negb (existsb (Ascii.eqb c) quote_chars
                                 || Ascii.eqb c "," || is_space c)))].

(** [/\b(?:[0-9]{3}[-]?[0-9]{2}[-]?[0-9]{4})\b/g] *)
Definition ssn_pattern : regex :=
  seq_of [RWordBoundary;
          times 3 digit; opt (lit "-");
          times 2 digit; opt (lit "-");
          times 4 digit;
          RWordBoundary].

Definition sensitivePatterns : list (regex * string) :=
  [(email_pattern, "email");
   (credit_card_pattern, "possible credit card");
   (key_value_pattern "password", "password");
   (key_value_pattern "secret", "secret");
   (key_value_pattern "token", "token");
   (key_value_pattern "key", "key");
   (ssn_pattern, "SSN")].

(** ** The data model of [src/types/index.ts] *)

Inductive Method := GET | POST | PUT | DELETE | PATCH.

Definition Method_to_string (m : Method) : string :=
  match m with
  | GET => "GET" | POST => "POST" | PUT => "PUT" | DELETE => "DELETE" | PATCH => "PATCH"
  end.

Record ApiEndpoint := {
  url : string;
  method : Method;
  endpoint_headers : option (gmap string string);
  body : option string
}.

Inductive Status := passed | failed | warning.
Inductive Severity := low | medium | high | critical.

Record TestResult := {
  name : string;
  result_status : Status;
  description : string;
  details : option string;
  severity : option Severity
}.

(** The request an HTTP call is made with. *)
Record AxiosRequestConfig := {
  config_method : string;
  config_url : string;
  config_headers : option (gmap string string);
  config_data : option json;
  validateStatus : Z → bool;
  timeout : Z
}.

(** Where in the engine a request is issued. *)
Inductive CallSite :=
| InitialRequest
| AuthRequest
| SensitiveDataRequest
| CorsRequest
| SecurityHeadersRequest
| RateLimitRequest (i : nat).

Definition Request : Type := CallSite * AxiosRequestConfig.

(** A settled promise of a probe: the requests it issued and its value or
    rejection. *)
Definition Settled (A : Type) : Type := list Request * outcome A.

Record SecurityTest := {
  id : string;
  test_name : string;
  test_description : string;
  run : ApiEndpoint → Settled TestResult
}.

Record ScanResult := {
  endpoint : ApiEndpoint;
  timestamp : string;
  results : list TestResult;
  rawResponse : jsval;
  responseTime : Z;
  statusCode : option Z
}.

(** ** The environment of a scan

    What the engine cannot decide: how the network answers each request
    (the answer is put in the store), what the clock reads, when each
    promise settles, how deep the call stack is. *)

Inductive Clock := ScanStart | ScanEnd | BurstStart | BurstEnd.

Inductive PromiseId := ProbePromise (i : nat) | BurstPromise (i : nat).

Record Env := {
  axios : CallSite → AxiosRequestConfig → Js AxiosResponse;
  Date_now : Clock → Z;
  toISOString : string;
  settled_at : PromiseId → Z;
  call_stack : nat
}.

(** Computations that also issue requests. *)
Definition Net (A : Type) : Type := heap → heap * list Request * outcome A.

Definition net_ret {A} (a : A) : Net A := λ h, (h, [], Ret a).
Definition net_throw {A} (e : JsError) : Net A := λ h, (h, [], Throw e).
Definition net_bind {A B} (m : Net A) (k : A → Net B) : Net B :=
  λ h, match m h with
       | (h', sent, Ret a) => let '(h'', sent', o) := k a h' in (h'', sent ++ sent', o)
       | (h', sent, Throw e) => (h', sent, Throw e)
       end.
Definition net_try {A} (m : Net A) (handler : JsError → Net A) : Net A :=
  λ h, match m h with
       | (h', sent, Ret a) => (h', sent, Ret a)
       | (h', sent, Throw e) => let '(h'', sent', o) := handler e h' in (h'', sent ++ sent', o)
       end.
Definition net_lift {A} (m : Js A) : Net A :=
  λ h, let '(h', o) := m h in (h', [], o).
Definition net_pure {A} (o : outcome A) : Net A := λ h, (h, [], o).
(** A promise awaited later: its rejection is a value for now. *)
Definition net_settle {A} (m : Net A) : Net (outcome A) :=
  λ h, let '(h', sent, o) := m h in (h', sent, Ret o).

Notation "x <- m ;; k" := (net_bind m (λ x, k))
  (at level 100, m at next level, right associativity).

Fixpoint net_map {A B} (f : A → Net B) (l : list A) : Net (list B) :=
  match l with
  | [] => net_ret []
  | x :: xs => y <- f x ;; ys <- net_map f xs ;; net_ret (y :: ys)
  end.

(** [Promise.all]: the promises settle in the order of their settling
    times; a fulfilled one stores its value at its own index, the first
    rejected one rejects the whole; when all are in, the values are the
    result. *)
Fixpoint collect {A} (ps : list (outcome A)) (order : list nat) (values : list (option A))
  : outcome (list A) :=
  match order with
  | [] => Ret (omap (λ v, v) values)
  | i :: rest =>
      match ps !! i with
      | Some (Throw e) => Throw e
      | Some (Ret v) => collect ps rest (<[i := Some v]> values)
      | None => collect ps rest values
      end
  end.

Definition settles_before (settle : nat → Z) : relation nat :=
  λ i j, settle i ≤ settle j.

#[global] Instance settles_before_dec settle : RelDecision (settles_before settle).
Proof. intros i j. unfold settles_before. apply _. Defined.

Definition completion_order (settle : nat → Z) (n : nat) : list nat :=
  merge_sort (settles_before settle) (seq 0 n).

Definition Promise_all {A} (settle : nat → Z) (ps : list (outcome A)) : outcome (list A) :=
  collect ps (completion_order settle (length ps)) (replicate (length ps) None).

(** Reading [v[key]] where [key] is a header name (never an index or
    [length]): only a plain object has such a property. *)
Definition get_member (h : heap) (v : jsval) (key : string) : outcome jsval :=
  match v with
  | JUndefined | JNull => Throw (TypeError "Cannot read properties of undefined")
  | JRef a =>
      match h !! a with
      | Some (JObject props) => Ret (get_prop key props)
      | _ => Ret JUndefined
      end
  | _ => Ret JUndefined
  end.

(** ToString, as a template literal applies it. *)
Fixpoint ToString (fuel : nat) (h : heap) (path : list addr) (v : jsval) : string :=
  match v with
  | JRef a =>
      if decide (a ∈ path) then "" else
      match fuel with
      | O => ""
      | S fuel' =>
          match h !! a with
          | Some (JArray items) =>
              join "," ((λ x, if is_nullish x then "" else ToString fuel' h (a :: path) x)
                          <$> items)
          | _ => "[object Object]"
          end
      end
  | _ => String_of_primitive v
  end.

Definition template (h : heap) (v : jsval) : string := ToString (S (length h)) h [] v.

(** [v?.includes(needle)]: [undefined] (here [false]) on a missing value,
    the substring test on a string, the element test on an array; any
    other value has no [includes] to call. *)
Definition optional_includes (h : heap) (v : jsval) (needle : string) : outcome bool :=
  match v with
  | JUndefined | JNull => Ret false
  | JStr s => Ret (String_includes s needle)
  | JRef a =>
      match h !! a with
      | Some (JArray items) => Ret (bool_decide (JStr needle ∈ items))
      | _ => Throw (TypeError "includes is not a function")
      end
  | _ => Throw (TypeError "includes is not a function")
  end.

(** ** The engine *)

Section Engine.

Variable env : Env.

(** [await axios(config)] at a call site: the request goes out, the
    environment answers. *)
Definition axios_call (site : CallSite) (config : AxiosRequestConfig) : Net AxiosResponse :=
  λ h, let '(h', o) := axios env site config h in (h', [(site, config)], o).

Definition guard (v : jsval) : Net jsval := net_lift (makeSerializable (call_stack env) v).

(** Safely execute axios requests with error handling. *)
Definition safeAxiosRequest (site : CallSite) (config : AxiosRequestConfig)
  : Net AxiosResponse :=
  net_try (axios_call site config)
    (λ error,
       if isAxiosError error then
         let st := match response error with
                   | Some r => if status r =? 0 then 500 else status r
                   | None => 500
                   end in
         let txt := match response error with
                    | Some r => if String.eqb (statusText r) "" then "Error" else statusText r
                    | None => "Error"
                    end in
         hs0 <- match response error with
                | Some r => if truthy (headers r) then net_ret (headers r)
                            else net_lift (alloc (JObject []))
                | None => net_lift (alloc (JObject []))
                end ;;
         hs <- guard hs0 ;;
         d0 <- match response error with
               | Some r => if truthy (data r) then net_ret (data r)
                           else net_lift (alloc (JObject [("message", JStr (message error))]))
               | None => net_lift (alloc (JObject [("message", JStr (message error))]))
               end ;;
         d <- guard d0 ;;
         net_ret {| status := st; statusText := txt; headers := hs; data := d |}
       else net_throw error).

(** [endpoint.body ? safeJsonParse(endpoint.body) : undefined] *)
Definition request_data (endpoint : ApiEndpoint) : option json :=
  match body endpoint with
  | Some b => if String.eqb b "" then None else Some (safeJsonParse b)
  | None => None
  end.

(** The request the probes that replay the endpoint send. *)
Definition replay (endpoint : ApiEndpoint) : AxiosRequestConfig :=
  {| config_method := Method_to_string (method endpoint);
     config_url := url endpoint;
     config_headers := endpoint_headers endpoint;
     config_data := request_data endpoint;
     validateStatus := λ _, true;
     timeout := 30000 |}.

Definition settle {A} (m : Net A) : Settled A :=
  let '(_, sent, o) := m [] in (sent, o).

(** *** Authentication Check *)

Definition strip_auth (hs : gmap string string) : gmap string string :=
  delete "api-key" (delete "x-api-key" (delete "Authorization" hs)).

Definition authenticationTest_run (endpoint : ApiEndpoint) : Net TestResult :=
  net_try
    (let strippedHeaders := strip_auth (default ∅ (endpoint_headers endpoint)) in
     response <- safeAxiosRequest AuthRequest
       {| config_method := Method_to_string (method endpoint);
          config_url := url endpoint;
          config_headers := Some strippedHeaders;
          config_data := request_data endpoint;
          validateStatus := λ _, true;
          timeout := 30000 |} ;;
     if (200 <=? status response) && (status response <? 300) then
       net_ret {| name := "Authentication Check";
                  result_status := failed;
                  description := "API endpoint accessible without authentication";
                  details := Some ("Received status code " +:+ Z_to_string (status response)
                                   +:+ " without authentication headers");
                  severity := Some high |}
     else if (status response =? 401) || (status response =? 403) then
       net_ret {| name := "Authentication Check";
                  result_status := passed;
                  description := "API properly requires authentication";
                  details := Some ("Received appropriate status code "
                                   +:+ Z_to_string (status response)
                                   +:+ " when authentication was removed");
                  severity := None |}
     else
       net_ret {| name := "Authentication Check";
                  result_status := warning;
                  description := "Unexpected response when testing authentication";
                  details := Some ("Received status code " +:+ Z_to_string (status response)
                                   +:+ " which is neither a success nor an auth error");
                  severity := Some medium |})
    (λ error,
       net_ret {| name := "Authentication Check";
                  result_status := warning;
                  description := "Error occurred during authentication test";
                  details := Some (message error);
                  severity := Some medium |}).

Definition authenticationTest : SecurityTest :=
  {| id := "auth-check";
     test_name := "Authentication Check";
     test_description := "Checks if the API requires proper authentication";
     run := λ endpoint, settle (authenticationTest_run endpoint) |}.

(** *** Sensitive Data Exposure *)

Definition finding_line (type : string) : string :=
  "Found possible " +:+ type +:+ " data in response".

(** The [forEach] over the pattern table. *)
Definition scan_patterns (responseStr : string) : list string :=
  foldl (λ findings '(pattern, type),
           match String_match responseStr pattern with
           | Some matches =>
               if (0 <? length matches)%nat then findings ++ [finding_line type]
               else findings
           | None => findings
           end) [] sensitivePatterns.

Definition newline : string := String "010" EmptyString.

Definition sensitive_report (responseStr : string) : TestResult :=
  let findings := scan_patterns responseStr in
  if (0 <? length findings)%nat then
    {| name := "Sensitive Data Exposure";
       result_status := failed;
       description := "API may be exposing sensitive data";
       details := Some (join newline findings);
       severity := Some high |}
  else
    {| name := "Sensitive Data Exposure";
       result_status := passed;
       description := "No obvious sensitive data found in response";
       details := None;
       severity := None |}.

Definition sensitiveDataTest_run (endpoint : ApiEndpoint) : Net TestResult :=
  net_try
    (response <- safeAxiosRequest SensitiveDataRequest (replay endpoint) ;;
     safeData <- guard (data response) ;;
     responseStr <- (λ h, (h, [], JSON_stringify h safeData)) ;;
     match responseStr with
     | Some responseStr => net_ret (sensitive_report responseStr)
     | None => net_throw (TypeError "Cannot read properties of undefined (reading 'match')")
     end)
    (λ error,
       net_ret {| name := "Sensitive Data Exposure";
                  result_status := warning;
                  description := "Error occurred during sensitive data test";
                  details := Some (message error);
                  severity := Some medium |}).

Definition sensitiveDataTest : SecurityTest :=
  {| id := "sensitive-data";
     test_name := "Sensitive Data Exposure";
     test_description := "Checks if the API exposes sensitive data in responses";
     run := λ endpoint, settle (sensitiveDataTest_run endpoint) |}.

(** *** CORS Configuration *)

Definition header (response : AxiosResponse) (key : string) : Net jsval :=
  λ h, (h, [], get_member h (headers response) key).

(** The decision on the two headers it reads. *)
Definition cors_report (h : heap) (allowOrigin allowCredentials : jsval)
  : outcome TestResult :=
  let hasWildcard := bool_decide (allowOrigin = JStr "*") in
  let allowsCredentials := bool_decide (allowCredentials = JStr "true") in
  if hasWildcard && allowsCredentials then
    Ret {| name := "CORS Configuration";
           result_status := failed;
           description := "Insecure CORS configuration detected";
           details := Some "API allows wildcard origin (*) with credentials, which is a security risk";
           severity := Some high |}
  else if hasWildcard then
    Ret {| name := "CORS Configuration";
           result_status := warning;
           description := "Permissive CORS configuration";
           details := Some "API allows requests from any origin (*)";
           severity := Some medium |}
  else
    match optional_includes h allowOrigin "malicious-site.example.com" with
    | Throw e => Throw e
    | Ret true =>
        Ret {| name := "CORS Configuration";
               result_status := failed;
               description := "CORS validation issue";
               details := Some "API accepts requests from untrusted origins";
               severity := Some high |}
    | Ret false =>
        if negb (truthy allowOrigin) then
          Ret {| name := "CORS Configuration";
                 result_status := passed;
                 description := "No CORS headers found or CORS is properly restricted";
                 details := None;
                 severity := None |}
        else
          Ret {| name := "CORS Configuration";
                 result_status := passed;
                 description := "CORS appears to be properly configured";
                 details := Some ("Origin: " +:+ template h allowOrigin);
                 severity := None |}
    end.

Definition corsTest_run (endpoint : ApiEndpoint) : Net TestResult :=
  net_try
    (response <- safeAxiosRequest CorsRequest
       {| config_method := "OPTIONS";
          config_url := url endpoint;
          config_headers :=
            Some (<["Access-Control-Request-Method" := Method_to_string (method endpoint)]>
                    (<["Origin" := "https://malicious-site.example.com"]>
                       (default ∅ (endpoint_headers endpoint))));
          config_data := None;
          validateStatus := λ _, true;
          timeout := 30000 |} ;;
     allowOrigin <- header response "access-control-allow-origin" ;;
     allowMethods <- header response "access-control-allow-methods" ;;
     allowHeaders <- header response "access-control-allow-headers" ;;
     allowCredentials <- header response "access-control-allow-credentials" ;;
     λ h, (h, [], cors_report h allowOrigin allowCredentials))
    (λ error,
       net_ret {| name := "CORS Configuration";
                  result_status := warning;
                  description := "Error occurred during CORS test";
                  details := Some (message error);
                  severity := Some low |}).

Definition corsTest : SecurityTest :=
  {| id := "cors-check";
     test_name := "CORS Configuration";
     test_description := "Checks for CORS misconfiguration";
     run := λ endpoint, settle (corsTest_run endpoint) |}.

(** *** Security Headers *)

Definition securityHeaderNames : list (string * string) :=
  [("Strict-Transport-Security", "strict-transport-security");
   ("Content-Security-Policy", "content-security-policy");
   ("X-Content-Type-Options", "x-content-type-options");
   ("X-Frame-Options", "x-frame-options");
   ("X-XSS-Protection", "x-xss-protection")].

Definition headers_report (securityHeaders : list (string * jsval)) : TestResult :=
  let missingHeaders := fst <$> filter (λ kv, negb (truthy kv.2) = true) securityHeaders in
  if (length missingHeaders =? 0)%nat then
    {| name := "Security Headers";
       result_status := passed;
       description := "All recommended security headers are present";
       details := None;
       severity := None |}
  else if (length missingHeaders <=? 2)%nat then
    {| name := "Security Headers";
       result_status := warning;
       description := "Some recommended security headers are missing";
       details := Some ("Missing headers: " +:+ join ", " missingHeaders);
       severity := Some medium |}
  else
    {| name := "Security Headers";
       result_status := failed;
       description := "Multiple important security headers are missing";
       details := Some ("Missing headers: " +:+ join ", " missingHeaders);
       severity := Some high |}.

Definition securityHeadersTest_run (endpoint : ApiEndpoint) : Net TestResult :=
  net_try
    (response <- safeAxiosRequest SecurityHeadersRequest (replay endpoint) ;;
     securityHeaders <- net_map (λ entry, v <- header response entry.2 ;; net_ret (entry.1, v))
                          securityHeaderNames ;;
     net_ret (headers_report securityHeaders))
    (λ error,
       net_ret {| name := "Security Headers";
                  result_status := warning;
                  description := "Error occurred during security headers test";
                  details := Some (message error);
                  severity := Some low |}).

Definition securityHeadersTest : SecurityTest :=
  {| id := "security-headers";
     test_name := "Security Headers";
     test_description := "Checks for important security headers";
     run := λ endpoint, settle (securityHeadersTest_run endpoint) |}.

(** *** Rate Limiting *)

Definition rateLimitHeaders : list string :=
  ["x-rate-limit-limit"; "x-rate-limit-remaining"; "x-rate-limit-reset"; "retry-after";
   "ratelimit-limit"; "ratelimit-remaining"; "ratelimit-reset"].

(** [response.headers && rateLimitHeaders.some(header => response.headers[header])] *)
Definition has_rate_limit_header (h : heap) (response : AxiosResponse) : bool :=
  truthy (headers response) &&
  existsb (λ key, match get_member h (headers response) key with
                  | Ret v => truthy v
                  | Throw _ => false
                  end) rateLimitHeaders.

Definition rate_limit_report (h : heap) (totalTime : Z) (responses : list AxiosResponse)
  : TestResult :=
  let hasRateLimitHeaders := existsb (has_rate_limit_header h) responses in
  let hasRateLimitStatus :=
    existsb (λ response, (status response =? 429) || (status response =? 503)) responses in
  if hasRateLimitStatus then
    {| name := "Rate Limiting";
       result_status := passed;
       description := "API implements rate limiting (received 429 Too Many Requests)";
       details := Some "Rate limiting is properly enforced";
       severity := None |}
  else if hasRateLimitHeaders then
    {| name := "Rate Limiting";
       result_status := passed;
       description := "API includes rate limit headers";
       details := Some "Rate limiting appears to be implemented";
       severity := None |}
  else if (totalTime <? 1000) && forallb (λ r, status r <? 400) responses then
    {| name := "Rate Limiting";
       result_status := warning;
       description := "No rate limiting detected";
       details := Some "API processed multiple requests quickly without rate limiting";
       severity := Some medium |}
  else
    {| name := "Rate Limiting";
       result_status := warning;
       description := "Rate limiting status unclear";
       details := Some "Could not definitively determine if rate limiting is implemented";
       severity := Some low |}.

(** The five requests are all issued before any is awaited. *)
Definition rateLimitTest_run (endpoint : ApiEndpoint) : Net TestResult :=
  net_try
    (let startTime := Date_now env BurstStart in
     requests <- net_map (λ i, net_settle (safeAxiosRequest (RateLimitRequest i) (replay endpoint)))
                   (seq 0 5) ;;
     responses <- net_pure (Promise_all (λ i, settled_at env (BurstPromise i)) requests) ;;
     let endTime := Date_now env BurstEnd in
     let totalTime := endTime - startTime in
     λ h, (h, [], Ret (rate_limit_report h totalTime responses)))
    (λ error,
       net_ret {| name := "Rate Limiting";
                  result_status := warning;
                  description := "Error occurred during rate limit test";
                  details := Some (message error);
                  severity := Some low |}).

Definition rateLimitTest : SecurityTest :=
  {| id := "rate-limit";
     test_name := "Rate Limiting";
     test_description := "Checks if the API implements rate limiting";
     run := λ endpoint, settle (rateLimitTest_run endpoint) |}.

(** Combine all tests. *)
Definition allTests : list SecurityTest :=
  [authenticationTest; sensitiveDataTest; corsTest; securityHeadersTest; rateLimitTest].

(** ** The orchestrator: [runApiTest] *)

Definition Status_to_string (s : Status) : string :=
  match s with passed => "passed" | failed => "failed" | warning => "warning" end.

Definition Severity_to_string (s : Severity) : string :=
  match s with low => "low" | medium => "medium" | high => "high" | critical => "critical" end.

Definition optional {A} (key : string) (f : A → jsval) (o : option A)
  : list (string * jsval) :=
  match o with Some a => [(key, f a)] | None => [] end.

(** The objects of a report, as the store holds them. *)
Definition new_TestResult (r : TestResult) : Js jsval :=
  alloc (JObject ([("name", JStr (name r));
                   ("status", JStr (Status_to_string (result_status r)));
                   ("description", JStr (description r))]
                  ++ optional "details" JStr (details r)
                  ++ optional "severity" (λ s, JStr (Severity_to_string s)) (severity r))).

Definition new_headers (hs : gmap string string) : Js jsval :=
  alloc (JObject (prod_map (λ k, k) JStr <$> map_to_list hs)).

Definition new_ApiEndpoint (e : ApiEndpoint) : Js jsval :=
  hs <~ match endpoint_headers e with
        | Some hs => v <~ new_headers hs ;; ret [("headers", v)]
        | None => ret []
        end ;;
  alloc (JObject ([("url", JStr (url e)); ("method", JStr (Method_to_string (method e)))]
                  ++ hs ++ optional "body" JStr (body e))).

Definition new_ScanResult (r : ScanResult) : Js jsval :=
  e <~ new_ApiEndpoint (endpoint r) ;;
  rs <~ Array_map new_TestResult (results r) ;;
  arr <~ alloc (JArray rs) ;;
  alloc (JObject [("endpoint", e);
                  ("timestamp", JStr (timestamp r));
                  ("results", arr);
                  ("rawResponse", rawResponse r);
                  ("responseTime", JNum (responseTime r));
                  ("statusCode", from_option JNum JUndefined (statusCode r))]).

Definition error_object (error : JsError) : Js jsval :=
  alloc (JObject [("error", JStr (message error))]).

(** The initial request; [statusCode] is assigned before the response
    data goes through the guard, so it survives a failure of the guard. *)
Definition initial_request (endpoint : ApiEndpoint) : Net (option Z * jsval) :=
  net_try
    (d <- net_pure match body endpoint with
                   | Some b => if String.eqb b "" then Ret None
                               else match JSON_parse b with
                                    | Ret v => Ret (Some v)
                                    | Throw e => Throw e
                                    end
                   | None => Ret None
                   end ;;
     response <- axios_call InitialRequest
       {| config_method := Method_to_string (method endpoint);
          config_url := url endpoint;
          config_headers := endpoint_headers endpoint;
          config_data := d;
          validateStatus := λ _, true;
          timeout := 30000 |} ;;
     net_try
       (raw <- guard (data response) ;; net_ret (Some (status response), raw))
       (λ error, raw <- net_lift (error_object error) ;;
                 net_ret (Some (status response), raw)))
    (λ error, raw <- net_lift (error_object error) ;; net_ret (None, raw)).

(** Filter tests if specific ones are selected. *)
Definition testsToRun (tests : list SecurityTest) (selectedTests : list string)
  : list SecurityTest :=
  if (0 <? length selectedTests)%nat
  then filter (λ test, id test ∈ selectedTests) tests
  else tests.

(** One entry of [testPromises]: the probe with the fallback result on an
    exception. *)
Definition testPromise (endpoint : ApiEndpoint) (test : SecurityTest) : Settled TestResult :=
  match run test endpoint with
  | (sent, Ret r) => (sent, Ret r)
  | (sent, Throw error) =>
      (sent, Ret {| name := test_name test;
                    result_status := warning;
                    description := "Test execution failed";
                    details := Some (message error);
                    severity := Some medium |})
  end.

(** [runApiTest] over a registry of probes. *)
Definition runApiTest_over (tests : list SecurityTest)
    (endpoint : ApiEndpoint) (selectedTests : list string) : Net jsval :=
  let startTime := Date_now env ScanStart in
  initial <- initial_request endpoint ;;
  let '(statusCode, rawResponse) := initial in
  let testPromises := testPromise endpoint <$> testsToRun tests selectedTests in
  results <- (λ h, (h, concat (fst <$> testPromises),
                    Promise_all (λ i, settled_at env (ProbePromise i)) (snd <$> testPromises))) ;;
  let endTime := Date_now env ScanEnd in
  let scanResult := {| endpoint := endpoint;
                       timestamp := toISOString env;
                       results := results;
                       rawResponse := rawResponse;
                       responseTime := endTime - startTime;
                       statusCode := statusCode |} in
  obj <- net_lift (new_ScanResult scanResult) ;;
  guard obj.

Definition runApiTest (endpoint : ApiEndpoint) (selectedTests : list string) : Net jsval :=
  runApiTest_over allTests endpoint selectedTests.

End Engine.

(** ** Definitions for the analysis *)

Fixpoint ser_depth (n : nat) (h : heap) (v : jsval) : bool :=
  match v with
  | JBigInt _ => false
  | JRef a =>
      match n with
      | O => false
      | S n' =>
          match h !! a with
          | None => false
          | Some (JArray items) => forallb (ser_depth n' h) items
          | Some (JObject props) => forallb (λ kv, ser_depth n' h kv.2) props
          end
      end
  | _ => true
  end.

(** What a sanitizing step guarantees: the store only grows, and a
    returned value is of bounded nesting, free of BigInt. *)
Definition sound_step {A} (f : A → Js jsval) : Prop :=
  ∀ v h h' o, f v h = (h', o) →
    (∃ k, h' = h ++ k) ∧ (∀ r, o = Ret r → ∃ n, ser_depth n h' r = true).

(** Values of bounded nesting, whatever their leaves: no cycle is reachable. *)
Fixpoint finite_depth (n : nat) (h : heap) (v : jsval) : bool :=
  match v with
  | JRef a =>
      match n with
      | O => false
      | S n' =>
          match h !! a with
          | None => false
          | Some (JArray items) => forallb (finite_depth n' h) items
          | Some (JObject props) => forallb (λ kv, finite_depth n' h kv.2) props
          end
      end
  | _ => true
  end.

(** Values [JSON.stringify] writes without loss: of bounded nesting, with
    no BigInt and no leaf it leaves out or turns into [null]. *)
Fixpoint lossless (n : nat) (h : heap) (v : jsval) : bool :=
  match v with
  | JUndefined | JFunction | JBigInt _ => false
  | JRef a =>
      match n with
      | O => false
      | S n' =>
          match h !! a with
          | None => false
          | Some (JArray items) => forallb (lossless n' h) items
          | Some (JObject props) => forallb (λ kv, lossless n' h kv.2) props
          end
      end
  | _ => true
  end.

Definition cyclic_array : heap := [JArray [JRef 0%nat]].
Definition function_field : heap := [JObject [("f", JFunction)]].

Definition nested_bigint : heap :=
  [JObject [("n", JBigInt 7); ("l", JRef 1%nat)]; JArray [JBigInt 1; JUndefined]].

(** The finding a probe leaves at its place in the report. *)
Definition synthetic (test : SecurityTest) (error : JsError) : TestResult :=
  {| name := test_name test;
     result_status := warning;
     description := "Test execution failed";
     details := Some (message error);
     severity := Some medium |}.

Definition finding (endpoint : ApiEndpoint) (test : SecurityTest) : TestResult :=
  match (run test endpoint).2 with
  | Ret r => r
  | Throw error => synthetic test error
  end.

Definition fill {A} (vs : list A) (order : list nat) (values : list (option A))
  : list (option A) :=
  foldl (λ acc i, match vs !! i with Some v => <[i := Some v]> acc | None => acc end)
        values order.

Definition report (env : Env) (endpoint : ApiEndpoint) (findings : list TestResult)
    (initial : option Z * jsval) : ScanResult :=
  {| endpoint := endpoint;
     timestamp := toISOString env;
     results := findings;
     rawResponse := initial.2;
     responseTime := Date_now env ScanEnd - Date_now env ScanStart;
     statusCode := initial.1 |}.

Definition requests_of (endpoint : ApiEndpoint) (tests : list SecurityTest) : list Request :=
  concat ((λ test, (run test endpoint).1) <$> tests).

(** Every value [m] returns satisfies [P]. *)
Definition returns_only {A} (P : A → Prop) (m : Net A) : Prop :=
  ∀ h h' sent a, m h = (h', sent, Ret a) → P a.

(** [m] never throws. *)
Definition total {A} (m : Net A) : Prop :=
  ∀ h, ∃ h' sent a, m h = (h', sent, Ret a).

(** [m] issues exactly the requests [l], whatever happens. *)
Definition sends {A} (l : list Request) (m : Net A) : Prop :=
  ∀ h, (m h).1.2 = l.

(** The registry as the specification lists it: ids and names, in order. *)
Definition registry : list (string * string) :=
  [("auth-check", "Authentication Check");
   ("sensitive-data", "Sensitive Data Exposure");
   ("cors-check", "CORS Configuration");
   ("security-headers", "Security Headers");
   ("rate-limit", "Rate Limiting")].

(** The request of the authentication probe. *)
Definition auth_request (endpoint : ApiEndpoint) : AxiosRequestConfig :=
  {| config_method := Method_to_string (method endpoint);
     config_url := url endpoint;
     config_headers := Some (strip_auth (default ∅ (endpoint_headers endpoint)));
     config_data := request_data endpoint;
     validateStatus := λ _, true;
     timeout := 30000 |}.

(** The preflight request of the CORS probe. *)
Definition cors_request (endpoint : ApiEndpoint) : AxiosRequestConfig :=
  {| config_method := "OPTIONS";
     config_url := url endpoint;
     config_headers :=
       Some (<["Access-Control-Request-Method" := Method_to_string (method endpoint)]>
               (<["Origin" := "https://malicious-site.example.com"]>
                  (default ∅ (endpoint_headers endpoint))));
     config_data := None;
     validateStatus := λ _, true;
     timeout := 30000 |}.

(** A server that answers every request with 200, a wildcard CORS header
    and a body holding a password. *)
Definition open_server : Env :=
  {| axios := λ site config,
       hs <~ alloc (JObject [("access-control-allow-origin", JStr "*")]) ;;
       d <~ alloc (JObject [("password", JStr "abc123")]) ;;
       ret {| status := 200; statusText := "OK"; headers := hs; data := d |};
     Date_now := λ c, match c with
                      | ScanStart => 0 | BurstStart => 10 | BurstEnd => 500 | ScanEnd => 600
                      end;
     toISOString := "2024-01-01T00:00:00.000Z";
     settled_at := λ p, match p with
                        | ProbePromise i => 100 - Z.of_nat i
                        | BurstPromise i => Z.of_nat i
                        end;
     call_stack := 100 |}.

(** A host that cannot be reached: every request times out. *)
Definition unreachable : Env :=
  {| axios := λ site config,
       throw {| error_name := "AxiosError";
                message := "timeout of 30000ms exceeded";
                isAxiosError := true;
                response := None |};
     Date_now := λ c, 0;
     toISOString := "2024-01-01T00:00:00.000Z";
     settled_at := λ p, 0;
     call_stack := 100 |}.

Definition plain_endpoint : ApiEndpoint :=
  {| url := "https://api.example.com/v1/users";
     method := GET;
     endpoint_headers := Some {["Authorization" := "Bearer token"]};
     body := None |}.

Definition invalid_body_endpoint : ApiEndpoint :=
  {| url := "https://api.example.com/v1/users";
     method := POST;
     endpoint_headers := None;
     body := Some "not json" |}.

Definition lowercase_auth_endpoint : ApiEndpoint :=
  {| url := "https://api.example.com/v1/users";
     method := GET;
     endpoint_headers := Some {["authorization" := "Bearer token"]};
     body := None |}.

(** A probe that always raises. *)
Definition failing_probe : SecurityTest :=
  {| id := "boom";
     test_name := "Failing Probe";
     test_description := "Always raises";
     run := λ _, ([], Throw (mkError "Error" "boom")) |}.

(** The parts of a failed call's response that are there to use: a status
    other than 0, a non-empty status text, headers and a payload that are
    not falsy. *)
Definition reported_status (error : JsError) : option Z :=
  r ← response error; if status r =? 0 then None else Some (status r).
Definition reported_statusText (error : JsError) : option string :=
  r ← response error; if String.eqb (statusText r) "" then None else Some (statusText r).
Definition reported_headers (error : JsError) : option jsval :=
  r ← response error; if truthy (headers r) then Some (headers r) else None.
Definition reported_data (error : JsError) : option jsval :=
  r ← response error; if truthy (data r) then Some (data r) else None.

Definition cors_decision (allowOrigin : option string) (credentials : bool) : TestResult :=
  match allowOrigin with
  | None =>
      {| name := "CORS Configuration"; result_status := passed;
         description := "No CORS headers found or CORS is properly restricted";
         details := None; severity := None |}
  | Some origin =>
      if decide (origin = "*") then
        if credentials then
          {| name := "CORS Configuration"; result_status := failed;
             description := "Insecure CORS configuration detected";
             details := Some "API allows wildcard origin (*) with credentials, which is a security risk";
             severity := Some high |}
        else
          {| name := "CORS Configuration"; result_status := warning;
             description := "Permissive CORS configuration";
             details := Some "API allows requests from any origin (*)";
             severity := Some medium |}
      else if String_includes origin "malicious-site.example.com" then
        {| name := "CORS Configuration"; result_status := failed;
           description := "CORS validation issue";
           details := Some "API accepts requests from untrusted origins";
           severity := Some high |}
      else if decide (origin = "") then
        {| name := "CORS Configuration"; result_status := passed;
           description := "No CORS headers found or CORS is properly restricted";
           details := None; severity := None |}
      else
        {| name := "CORS Configuration"; result_status := passed;
           description := "CORS appears to be properly configured";
           details := Some ("Origin: " +:+ origin); severity := None |}
  end.

Definition reflecting_server (origin : string) : Env :=
  {| axios := λ site config,
       hs <~ alloc (JObject [("access-control-allow-origin", JStr origin);
                             ("access-control-allow-credentials", JStr "true")]) ;;
       ret {| status := 204; statusText := "No Content"; headers := hs; data := JStr "" |};
     Date_now := λ c, 0;
     toISOString := "2024-01-01T00:00:00.000Z";
     settled_at := λ p, 0;
     call_stack := 100 |}.

(** The types of the patterns with at least one match, in table order. *)
Definition matched_types (responseStr : string) : list string :=
  snd <$> filter (λ p, is_Some (String_match responseStr p.1)) sensitivePatterns.

Definition open_server_store : heap :=
  [JObject [("access-control-allow-origin", JStr "*")];
   JObject [("password", JStr "abc123")]].

(** An object that holds itself and a BigInt. *)
Definition self_object : heap := [JObject [("self", JRef 0%nat); ("big", JBigInt 7)]].

(** A server that answers every request with the given status and
    headers, and an empty object as body. *)
Definition fixed_server (code : Z) (hs : list (string * jsval)) : Env :=
  {| axios := λ site config,
       h <~ alloc (JObject hs) ;;
       d <~ alloc (JObject []) ;;
       ret {| status := code; statusText := "status"; headers := h; data := d |};
     Date_now := λ c, match c with BurstEnd => 300 | _ => 0 end;
     toISOString := "2024-01-01T00:00:00.000Z";
     settled_at := λ p, match p with
                        | ProbePromise i => Z.of_nat i
                        | BurstPromise i => 10 - Z.of_nat i
                        end;
     call_stack := 100 |}.

(** A server whose answer has no body at all. *)
Definition bodiless_server : Env :=
  {| axios := λ site config,
       h <~ alloc (JObject []) ;;
       ret {| status := 204; statusText := "No Content"; headers := h; data := JUndefined |};
     Date_now := λ c, 0;
     toISOString := "2024-01-01T00:00:00.000Z";
     settled_at := λ p, 0;
     call_stack := 100 |}.

Definition keyed_endpoint : ApiEndpoint :=
  {| url := "https://api.example.com/v1/users";
     method := POST;
     endpoint_headers := Some {["Authorization" := "Bearer token"; "x-api-key" := "k1";
                                "api-key" := "k2"; "Accept" := "application/json";
                                "Origin" := "https://app.example.com"]};
     body := Some "{}" |}.

(** The names of the security headers the answer lacks, in the order of
    the table. *)
Definition missing_headers (props : list (string * jsval)) : list string :=
  fst <$> filter (λ entry, truthy (get_prop entry.2 props) = false) securityHeaderNames.

(** A client that fails before any request is made, with an error that
    is not an axios error. *)
Definition broken_client : Env :=
  {| axios := λ site config, throw (mkError "TypeError" "Invalid URL");
     Date_now := λ c, 0;
     toISOString := "2024-01-01T00:00:00.000Z";
     settled_at := λ p, 0;
     call_stack := 100 |}.



(** * Properties *)

(** ** Analysis of the store: values of bounded nesting *)

Lemma forallb_impl {A} (f g : A → bool) (l : list A) :
  (∀ x, x ∈ l → f x = true → g x = true) → forallb f l = true → forallb g l = true.
Proof.
  induction l as [|x l IH]; simpl; [done|].
  intros Hfg [Hx Hl]%andb_true_iff. apply andb_true_iff. split.
  - apply Hfg; [left|done].
  - apply IH; [|done]. intros y Hy. apply Hfg. by right.
Qed.

Lemma ser_depth_S n h v : ser_depth n h v = true → ser_depth (S n) h v = true.
Proof.
  revert v. induction n as [|n IH]; intros v; destruct v; try done.
  cbn [ser_depth]. destruct (h !! a) as [[items|props]|]; [| |done].
  - apply forallb_impl. intros x _. apply IH.
  - apply forallb_impl. intros x _. apply IH.
Qed.

Lemma ser_depth_mono n m h v : (n ≤ m)%nat → ser_depth n h v = true → ser_depth m h v = true.
Proof. induction 1; [done|]. intros. by apply ser_depth_S, IHle. Qed.

Lemma ser_depth_ext n h k v : ser_depth n h v = true → ser_depth n (h ++ k) v = true.
Proof.
  revert v. induction n as [|n IH]; intros v; destruct v; try done.
  cbn [ser_depth]. destruct (h !! a) as [o|] eqn:Ha; [|done].
  rewrite (lookup_app_l_Some _ _ _ _ Ha). destruct o.
  - apply forallb_impl. intros x _. apply IH.
  - apply forallb_impl. intros x _. apply IH.
Qed.

Lemma traverse_Ret {A B} (f : A → outcome B) l ys :
  traverse f l = Ret ys → Forall (λ x, ∃ y, f x = Ret y) l.
Proof.
  revert ys. induction l as [|x l IH]; intros ys; simpl; [constructor|].
  destruct (f x) eqn:Hx; [|done]. destruct (traverse f l) eqn:Hl; [|done].
  intros _. constructor; eauto.
Qed.

Lemma traverse_all {A B} (f : A → outcome B) l :
  Forall (λ x, ∃ y, f x = Ret y) l → ∃ ys, traverse f l = Ret ys.
Proof.
  induction 1 as [|x l [y Hy] _ [ys IH]]; simpl; [eauto|].
  rewrite Hy, IH. eauto.
Qed.

Lemma stringify_ser fuel h path v s :
  SerializeJSONProperty fuel h path v = Ret s → ser_depth fuel h v = true.
Proof.
  revert path v s. induction fuel as [|fuel IH]; intros path v s; destruct v; try done.
  - simpl. by case_decide.
  - cbn [SerializeJSONProperty ser_depth]. case_decide; [done|].
    destruct (h !! a) as [[items|props]|]; [| |done].
    + destruct (traverse _ items) eqn:Ht; [|done]. intros _.
      apply traverse_Ret in Ht. apply forallb_forall. intros x Hx.
      rewrite Forall_forall in Ht. destruct (Ht x) as [y Hy]; [by apply list_elem_of_In|].
      eapply IH, Hy.
    + destruct (traverse _ props) eqn:Ht; [|done]. intros _.
      apply traverse_Ret in Ht. apply forallb_forall. intros x Hx.
      rewrite Forall_forall in Ht. destruct (Ht x) as [y Hy]; [by apply list_elem_of_In|].
      destruct (SerializeJSONProperty fuel h (a :: path) x.2) eqn:Hs; [|done].
      eapply IH, Hs.
Qed.

Lemma NoDup_bounded_length (l : list nat) n :
  NoDup l → (∀ x, x ∈ l → (x < n)%nat) → (length l ≤ n)%nat.
Proof.
  intros Hnd Hb.
  assert (l ⊆+ seq 0 n) as Hsub.
  { apply NoDup_submseteq; [done|]. intros x Hx. apply elem_of_seq. specialize (Hb x Hx). lia. }
  apply submseteq_length in Hsub. by rewrite length_seq in Hsub.
Qed.

Lemma ser_stringify n h : ∀ v fuel path,
  ser_depth n h v = true →
  NoDup path →
  (∀ b, b ∈ path → (b < length h)%nat) →
  (∀ b, b ∈ path → ser_depth n h (JRef b) = false) →
  (length h < fuel + length path)%nat →
  ∃ s, SerializeJSONProperty fuel h path v = Ret s.
Proof.
  induction n as [|n IH]; intros v fuel path Hser Hnd Hb Hdeep Hfuel.
  { destruct v; simpl in *; try done; destruct fuel; simpl; eauto. }
  destruct v; try (simpl in *; done || (destruct fuel; simpl; eauto); fail).
  destruct (ser_depth n h (JRef a)) eqn:Hprev.
  { apply IH; try done. intros b Hbp. specialize (Hdeep b Hbp).
    destruct (ser_depth n h (JRef b)) eqn:E; [|done].
    apply ser_depth_S in E. congruence. }
  assert (a ∉ path) as Hnot.
  { intros Hin. specialize (Hdeep a Hin). congruence. }
  pose proof Hser as Hser'. cbn [ser_depth] in Hser.
  destruct (h !! a) as [o|] eqn:Ha; [|done].
  assert (length (a :: path) ≤ length h)%nat as Hlen.
  { apply NoDup_bounded_length; [by constructor|].
    intros b [->|Hbp]%elem_of_cons; [by eapply lookup_lt_Some|by apply Hb]. }
  simpl in Hlen.
  destruct fuel as [|fuel]; [lia|].
  cbn [SerializeJSONProperty]. rewrite decide_False by done. rewrite Ha.
  assert (Hsub : ∀ x, ser_depth n h x = true →
            ∃ s, SerializeJSONProperty fuel h (a :: path) x = Ret s).
  { intros x Hx. apply IH; try done.
    - by constructor.
    - intros b [->|Hbp]%elem_of_cons; [by eapply lookup_lt_Some|by apply Hb].
    - intros b [->|Hbp]%elem_of_cons; [done|].
      specialize (Hdeep b Hbp). destruct (ser_depth n h (JRef b)) eqn:E; [|done].
      apply ser_depth_S in E. congruence.
    - simpl. lia. }
  destruct o as [items|props].
  - destruct (traverse_all (SerializeJSONProperty fuel h (a :: path)) items) as [ys ->]; [|eauto].
    apply Forall_forall. intros x Hx. apply Hsub.
    rewrite forallb_forall in Hser. apply Hser. by apply list_elem_of_In.
  - match goal with |- context [traverse ?f props] =>
      destruct (traverse_all f props) as [ys ->]; [|eauto] end.
    apply Forall_forall. intros x Hx.
    rewrite forallb_forall in Hser. specialize (Hser x). 
    destruct (Hsub x.2) as [[s|] ->]; [apply Hser; by apply list_elem_of_In| |]; eauto.
Qed.

Lemma JSON_stringify_ok h v :
  (∃ s, JSON_stringify h v = Ret s) ↔ (∃ n, ser_depth n h v = true).
Proof.
  split.
  - intros [s Hs]. eexists. eapply stringify_ser, Hs.
  - intros [n Hn]. eapply ser_stringify; try done.
    + constructor.
    + intros b Hb. by apply elem_of_nil in Hb.
    + intros b Hb. by apply elem_of_nil in Hb.
    + simpl. lia.
Qed.

(** ** The guard's results *)

Lemma makeSerializable_unfold d obj h :
  makeSerializable (S d) obj h =
    if is_nullish obj then (h, Ret obj) else
    match JSON_stringify h obj with
    | Ret _ => (h, Ret obj)
    | Throw _ =>
        match obj with
        | JRef a =>
            match h !! a with
            | Some (JArray items) =>
                (items' <~ Array_map (makeSerializable d) items ;; alloc (JArray items')) h
            | Some (JObject props) =>
                (result <~ sanitize_props (makeSerializable d) props [] ;;
                 alloc (JObject result)) h
            | None => alloc (JObject []) h
            end
        | _ => (h, Ret (JStr (String_of_primitive obj)))
        end
    end.
Proof.
  cbn [makeSerializable]. destruct (is_nullish obj); [done|].
  unfold try_catch, bind, lift, ret. destruct (JSON_stringify h obj); [done|].
  by destruct obj.
Qed.

Lemma forallb_ser_ext n h k (l : list jsval) :
  forallb (ser_depth n h) l = true → forallb (ser_depth n (h ++ k)) l = true.
Proof.
  revert l. induction l as [|x l IH]; simpl; [done|].
  intros [Hx Hl]%andb_true_iff. apply andb_true_iff. split; [by apply ser_depth_ext|by apply IH].
Qed.

Lemma forallb_ser_mono n m h (l : list jsval) :
  (n ≤ m)%nat → forallb (ser_depth n h) l = true → forallb (ser_depth m h) l = true.
Proof. intros Hle. apply forallb_impl. intros x _. by apply ser_depth_mono. Qed.

Lemma props_ser_ext n h k (l : list (string * jsval)) :
  forallb (λ kv, ser_depth n h kv.2) l = true →
  forallb (λ kv, ser_depth n (h ++ k) kv.2) l = true.
Proof. apply forallb_impl. intros x _. apply ser_depth_ext. Qed.

Lemma props_ser_mono n m h (l : list (string * jsval)) :
  (n ≤ m)%nat → forallb (λ kv, ser_depth n h kv.2) l = true →
  forallb (λ kv, ser_depth m h kv.2) l = true.
Proof. intros Hle. apply forallb_impl. intros x _. by apply ser_depth_mono. Qed.

Lemma set_prop_ser n h key v props :
  ser_depth n h v = true →
  forallb (λ kv, ser_depth n h kv.2) props = true →
  forallb (λ kv, ser_depth n h kv.2) (set_prop key v props) = true.
Proof.
  intros Hv. induction props as [|[k w] props IH]; simpl.
  - by rewrite Hv.
  - intros [Hw Hl]%andb_true_iff. case_decide; simpl.
    + by rewrite Hv, Hl.
    + by rewrite Hw, IH.
Qed.

Lemma Array_map_sound {A} (f : A → Js jsval) items h h' o :
  sound_step f → Array_map f items h = (h', o) →
  (∃ k, h' = h ++ k) ∧
  (∀ rs, o = Ret rs → length rs = length items ∧ ∃ n, forallb (ser_depth n h') rs = true).
Proof.
  intros Hf. revert h h' o. induction items as [|x items IH]; intros h h' o.
  - intros [= <- <-]. split; [exists []; by rewrite app_nil_r|].
    intros rs [= <-]. split; [done|]. by exists O.
  - cbn [Array_map]. unfold bind at 1.
    destruct (f x h) as [h1 [y|e]] eqn:Hx.
    2:{ intros [= <- <-]. split; [by eapply Hf|]. done. }
    destruct (Hf _ _ _ _ Hx) as [[k1 ->] Hy]. destruct (Hy y eq_refl) as [n1 Hn1].
    unfold bind at 1.
    destruct (Array_map f items (h ++ k1)) as [h2 [ys|e]] eqn:Hxs.
    2:{ intros [= <- <-]. destruct (IH _ _ _ Hxs) as [[k2 ->] _].
        split; [|done]. exists (k1 ++ k2). by rewrite app_assoc. }
    destruct (IH _ _ _ Hxs) as [[k2 ->] Hys].
    destruct (Hys ys eq_refl) as [Hlen [n2 Hn2]].
    unfold ret. intros [= <- <-]. split; [exists (k1 ++ k2); by rewrite app_assoc|].
    intros rs [= <-]. split; [simpl; by rewrite Hlen|].
    exists (n1 `max` n2)%nat. simpl. apply andb_true_iff. split.
    + apply ser_depth_ext. eapply ser_depth_mono; [|done]. lia.
    + eapply forallb_ser_mono; [|done]. lia.
Qed.

Lemma placeholder_ser n h v : ser_depth n h (placeholder v) = true.
Proof. by destruct n. Qed.

Lemma sanitize_props_sound f props result h h' o :
  sound_step f →
  (∃ n, forallb (λ kv, ser_depth n h kv.2) result = true) →
  sanitize_props f props result h = (h', o) →
  (∃ k, h' = h ++ k) ∧
  ∃ res, o = Ret res ∧ ∃ n, forallb (λ kv, ser_depth n h' kv.2) res = true.
Proof.
  intros Hf. revert result h h' o.
  induction props as [|[key value] props IH]; intros result h h' o [n Hres].
  - intros [= <- <-]. split; [exists []; by rewrite app_nil_r|]. eauto.
  - cbn [sanitize_props]. unfold bind at 1, try_catch at 1.
    destruct (f value h) as [h1 [y|e]] eqn:Hx;
      destruct (Hf _ _ _ _ Hx) as [[k1 ->] Hy].
    + destruct (Hy y eq_refl) as [n1 Hn1]. intros Hrest.
      apply IH in Hrest as [[k2 ->] Hrest].
      * split; [exists (k1 ++ k2); by rewrite app_assoc|done].
      * exists (n `max` n1)%nat. apply set_prop_ser.
        -- eapply ser_depth_mono; [|done]. lia.
        -- apply props_ser_ext. eapply props_ser_mono; [|done]. lia.
    + unfold ret at 1. intros Hrest.
      apply IH in Hrest as [[k2 ->] Hrest].
      * split; [exists (k1 ++ k2); by rewrite app_assoc|done].
      * exists n. apply set_prop_ser; [apply placeholder_ser|by apply props_ser_ext].
Qed.

Lemma alloc_array_ser n h items :
  forallb (ser_depth n h) items = true →
  ser_depth (S n) (h ++ [JArray items]) (JRef (length h)) = true.
Proof.
  intros H. cbn [ser_depth]. rewrite list_lookup_middle by done. by apply forallb_ser_ext.
Qed.

Lemma alloc_object_ser n h props :
  forallb (λ kv, ser_depth n h kv.2) props = true →
  ser_depth (S n) (h ++ [JObject props]) (JRef (length h)) = true.
Proof.
  intros H. cbn [ser_depth]. rewrite list_lookup_middle by done. by apply props_ser_ext.
Qed.

Lemma makeSerializable_sound d : sound_step (makeSerializable d).
Proof.
  induction d as [|d IH]; intros v h h' o.
  { intros [= <- <-]. split; [exists []; by rewrite app_nil_r|done]. }
  rewrite makeSerializable_unfold.
  destruct (is_nullish v) eqn:Hnull.
  { intros [= <- <-]. split; [exists []; by rewrite app_nil_r|].
    intros r [= <-]. exists O. by destruct v. }
  destruct (JSON_stringify h v) as [s|e] eqn:Hs.
  { intros [= <- <-]. split; [exists []; by rewrite app_nil_r|].
    intros r [= <-]. apply JSON_stringify_ok. eauto. }
  destruct v;
    try (intros [= <- <-]; (split; [exists []; by rewrite app_nil_r|]);
         intros r [= <-]; by exists O).
  destruct (h !! a) as [[items|props]|] eqn:Ha.
  - unfold bind. destruct (Array_map (makeSerializable d) items h) as [h1 [rs|e']] eqn:Hm;
      destruct (Array_map_sound _ _ _ _ _ IH Hm) as [[k ->] Hrs].
    + destruct (Hrs rs eq_refl) as [_ [n Hn]]. unfold alloc. intros [= <- <-].
      split; [exists (k ++ [JArray rs]); by rewrite app_assoc|].
      intros r [= <-]. exists (S n). by apply alloc_array_ser.
    + intros [= <- <-]. split; [eauto|done].
  - unfold bind. destruct (sanitize_props (makeSerializable d) props [] h) as [h1 o1] eqn:Hm.
    assert (∃ n, forallb (λ kv : string * jsval, ser_depth n h kv.2) [] = true) as H0
      by (by exists O).
    destruct (sanitize_props_sound _ _ _ _ _ _ IH H0 Hm) as [[k ->] (res & -> & n & Hn)].
    unfold alloc. intros [= <- <-].
    split; [exists (k ++ [JObject res]); by rewrite app_assoc|].
    intros r [= <-]. exists (S n). by apply alloc_object_ser.
  - unfold alloc. intros [= <- <-]. split; [eauto|].
    intros r [= <-]. exists 1%nat. cbn [ser_depth]. by rewrite list_lookup_middle.
Qed.

Lemma makeSerializable_result_stringifies d v h h' r :
  makeSerializable d v h = (h', Ret r) → ∃ s, JSON_stringify h' r = Ret s.
Proof.
  intros H. apply JSON_stringify_ok.
  by destruct (makeSerializable_sound d _ _ _ _ H) as [_ Hr]; apply Hr.
Qed.

Lemma makeSerializable_fixed d v h h' r :
  makeSerializable d v h = (h', Ret r) → makeSerializable d r h' = (h', Ret r).
Proof.
  intros H. destruct d as [|d]; [done|].
  destruct (makeSerializable_result_stringifies _ _ _ _ _ H) as [s Hs].
  rewrite makeSerializable_unfold, Hs. by destruct (is_nullish r).
Qed.

Lemma finite_depth_ext n h k v : finite_depth n h v = true → finite_depth n (h ++ k) v = true.
Proof.
  revert v. induction n as [|n IH]; intros v; destruct v; try done.
  cbn [finite_depth]. destruct (h !! a) as [o|] eqn:Ha; [|done].
  rewrite (lookup_app_l_Some _ _ _ _ Ha). destruct o.
  - apply forallb_impl. intros x _. apply IH.
  - apply forallb_impl. intros x _. apply IH.
Qed.

Lemma Array_map_returns f n items h :
  sound_step f →
  (∀ x h, finite_depth n h x = true → ∃ h' r, f x h = (h', Ret r)) →
  forallb (finite_depth n h) items = true →
  ∃ h' rs, Array_map f items h = (h', Ret rs).
Proof.
  intros Hs Hf. revert h. induction items as [|x items IH]; intros h; simpl.
  - intros _. by eexists _, _.
  - intros [Hx Hl]%andb_true_iff. destruct (Hf x h Hx) as (h1 & r & Hr).
    unfold bind at 1. rewrite Hr. destruct (Hs _ _ _ _ Hr) as [[k ->] _].
    destruct (IH (h ++ k)) as (h2 & rs & Hrs).
    { revert Hl. apply forallb_impl. intros y _. apply finite_depth_ext. }
    unfold bind at 1. rewrite Hrs. by eexists _, _.
Qed.

Lemma makeSerializable_returns stack : ∀ n v h,
  finite_depth n h v = true → (n < stack)%nat →
  ∃ h' r, makeSerializable stack v h = (h', Ret r).
Proof.
  induction stack as [|d IH]; intros n v h Hfin Hlt; [lia|].
  rewrite makeSerializable_unfold.
  destruct (is_nullish v); [by eexists _, _|].
  destruct (JSON_stringify h v); [by eexists _, _|].
  destruct v; try by eexists _, _.
  destruct n as [|n]; [done|]. cbn [finite_depth] in Hfin.
  destruct (h !! a) as [[items|props]|]; [| |done].
  - destruct (Array_map_returns (makeSerializable d) n items h) as (h1 & rs & Hrs);
      [apply makeSerializable_sound| |done|].
    { intros x h0 Hx. apply (IH n); [done|lia]. }
    unfold bind. rewrite Hrs. by eexists _, _.
  - unfold bind. destruct (sanitize_props (makeSerializable d) props [] h) as [h1 o1] eqn:Hm.
    assert (∃ n, forallb (λ kv : string * jsval, ser_depth n h kv.2) [] = true) as H0
      by (by exists O).
    destruct (sanitize_props_sound _ _ _ _ _ _ (makeSerializable_sound d) H0 Hm)
      as [_ (res & -> & _)].
    by eexists _, _.
Qed.

(** C3: the guard is idempotent: run on its own result, in the store it
    left, it returns that very value and leaves the store as it is (and
    where the first run raises, so does the composition). *)
Theorem makeSerializable_idempotent (stack : nat) (v : jsval) (h : heap) :
  bind (makeSerializable stack v) (makeSerializable stack) h = makeSerializable stack v h.
Proof.
  unfold bind. destruct (makeSerializable stack v h) as [h' [r|e]] eqn:H; [|done].
  by apply makeSerializable_fixed in H.
Qed.

(** C2, as stated, fails: on an array that contains itself the guard
    raises, whatever the depth of the stack, and an object with a function
    field is returned as it is, though [JSON.stringify] drops the field. *)
Lemma makeSerializable_raises_and_keeps_function :
  (∀ stack, makeSerializable stack (JRef 0%nat) cyclic_array
            = (cyclic_array, Throw RangeError_stack)) ∧
  makeSerializable 1 (JRef 0%nat) function_field = (function_field, Ret (JRef 0%nat)) ∧
  JSON_stringify function_field (JRef 0%nat) = Ret (Some "{}") ∧
  (∀ n, lossless n function_field (JRef 0%nat) = false).
Proof.
  split; [|split; [done|split; [done|]]].
  - induction stack as [|d IH]; [done|].
    rewrite makeSerializable_unfold. cbn [is_nullish].
    change (JSON_stringify cyclic_array (JRef 0%nat)) with (@Throw (option string) cyclic_error).
    cbn [lookup list_lookup cyclic_array]. unfold bind. cbn [Array_map]. unfold bind.
    fold cyclic_array. by rewrite IH.
  - by intros [|[|n]].
Qed.

(** C2, amended: whenever the guard returns, [JSON.stringify] accepts its
    result (no cycle and no BigInt is left in it), and on an input of
    bounded nesting it does return, as soon as the stack is deeper than
    the nesting. *)
Theorem makeSerializable_result_encodes (stack n : nat) (v : jsval) (h : heap) :
  (∀ h' r, makeSerializable stack v h = (h', Ret r) → ∃ s, JSON_stringify h' r = Ret s) ∧
  (finite_depth n h v = true → (n < stack)%nat →
   ∃ h' r, makeSerializable stack v h = (h', Ret r)).
Proof.
  split.
  - intros h' r. apply makeSerializable_result_stringifies.
  - apply makeSerializable_returns.
Qed.

Lemma makeSerializable_result_encodes_witness :
  finite_depth 2 nested_bigint (JRef 0%nat) = true ∧ (2 < 3)%nat ∧
  ∃ h' r, makeSerializable 3 (JRef 0%nat) nested_bigint = (h', Ret r) ∧
          ∃ s, JSON_stringify h' r = Ret s.
Proof.
  split; [reflexivity|]. split; [lia|].
  destruct (makeSerializable_result_encodes 3 2 (JRef 0%nat) nested_bigint) as [Henc Hret].
  destruct (Hret eq_refl ltac:(lia)) as (h' & r & Hr).
  exists h', r. split; [exact Hr|]. exact (Henc h' r Hr).
Defined.

(** ** [Promise.all] *)

Lemma collect_fulfilled {A} (vs : list A) order values :
  collect (Ret <$> vs) order values = Ret (omap (λ v, v) (fill vs order values)).
Proof.
  revert values. induction order as [|i order IH]; intros values; [done|].
  cbn [collect fill foldl]. rewrite list_lookup_fmap.
  destruct (vs !! i); simpl; apply IH.
Qed.

Lemma fill_length {A} (vs : list A) order values :
  length (fill vs order values) = length values.
Proof.
  revert values. induction order as [|i order IH]; intros values; [done|].
  cbn [fill foldl]. destruct (vs !! i); unfold fill in IH; rewrite IH; [|done].
  by rewrite length_insert.
Qed.

Lemma fill_lookup {A} (vs : list A) order values j :
  j ∈ order → (j < length values)%nat → length values = length vs →
  fill vs order values !! j = Some (vs !! j).
Proof.
  revert values. induction order as [|i order IH]; intros values Hj Hlt Hlen.
  { by apply elem_of_nil in Hj. }
  cbn [fill foldl].
  destruct (decide (j ∈ order)) as [Hin|Hnin].
  - destruct (vs !! i); unfold fill in IH; apply IH; rewrite ?length_insert; done.
  - apply elem_of_cons in Hj as [->|]; [|done].
    destruct (lookup_lt_is_Some_2 vs i) as [v Hv]; [lia|]. rewrite Hv.
    assert (∀ (acc : list (option A)), i ∉ order →
      foldl (λ acc i, match vs !! i with Some v => <[i := Some v]> acc | None => acc end)
        acc order !! i = acc !! i) as Hkeep.
    { clear. induction order as [|k order IH]; intros acc Hn; [done|].
      cbn [foldl]. apply not_elem_of_cons in Hn as [Hne Hn].
      rewrite IH by done. destruct (vs !! k); [|done].
      by rewrite list_lookup_insert_ne. }
    rewrite Hkeep by done. by rewrite list_lookup_insert_eq.
Qed.

Lemma omap_Some {A} (vs : list A) : omap (λ v, v) (Some <$> vs) = vs.
Proof. induction vs as [|v vs IH]; [done|]. simpl. by f_equal. Qed.

(** When every promise is fulfilled, the values come in the order of the
    promises, whatever the order in which they settled. *)
Lemma Promise_all_fulfilled {A} (settle : nat → Z) (vs : list A) :
  Promise_all settle (Ret <$> vs) = Ret vs.
Proof.
  unfold Promise_all. rewrite collect_fulfilled, length_fmap. f_equal.
  etrans; [|apply omap_Some]. f_equal.
  apply list_eq. intros j. rewrite list_lookup_fmap.
  destruct (decide (j < length vs)%nat) as [Hlt|Hge].
  - rewrite fill_lookup; rewrite ?length_replicate; try done.
    + destruct (lookup_lt_is_Some_2 vs j Hlt) as [v ->]. done.
    + unfold completion_order. rewrite merge_sort_Permutation. apply elem_of_seq. lia.
  - rewrite (lookup_ge_None_2 vs) by lia. simpl.
    apply lookup_ge_None_2. rewrite fill_length, length_replicate. lia.
Qed.

(** ** The report in the store *)

Lemma alloc_sound o n h :
  (match o with
   | JArray items => forallb (ser_depth n h) items
   | JObject props => forallb (λ kv, ser_depth n h kv.2) props
   end = true) →
  ser_depth (S n) (h ++ [o]) (JRef (length h)) = true.
Proof. destruct o; [apply alloc_array_ser|apply alloc_object_ser]. Qed.

Lemma new_TestResult_sound : sound_step new_TestResult.
Proof.
  intros r h h' o [= <- <-]. split; [eauto|]. intros v [= <-]. exists 1%nat.
  apply alloc_sound. destruct (details r), (severity r); reflexivity.
Qed.

Lemma strings_ser n h (l : list (string * string)) :
  forallb (λ kv, ser_depth n h kv.2) (prod_map (λ k, k) JStr <$> l) = true.
Proof.
  apply forallb_forall. intros x Hx%list_elem_of_In.
  apply list_elem_of_fmap in Hx as [[k v] [-> _]]. by destruct n.
Qed.

Lemma new_ApiEndpoint_sound : sound_step new_ApiEndpoint.
Proof.
  intros e h h' o. unfold new_ApiEndpoint, new_headers, bind, alloc, ret.
  destruct (endpoint_headers e) as [hs|].
  - intros [= <- <-]. split; [rewrite <- app_assoc; eauto|]. intros v [= <-]. exists 2%nat.
    apply alloc_sound.
    destruct (body e); cbn [forallb app fst snd optional ser_depth];
      rewrite list_lookup_middle by done;
      change (forallb _ (prod_map (λ k : string, k) JStr <$> map_to_list hs))
        with (forallb (λ kv : string * jsval, ser_depth 0 (h ++ [JObject (prod_map (λ k : string, k) JStr <$> map_to_list hs)]) kv.2)
                (prod_map (λ k : string, k) JStr <$> map_to_list hs));
      by rewrite strings_ser.
  - intros [= <- <-]. split; [eauto|]. intros v [= <-]. exists 1%nat.
    apply alloc_sound. by destruct (body e).
Qed.

Lemma new_ScanResult_returns r h n :
  ser_depth n h (rawResponse r) = true →
  ∃ h' v m, new_ScanResult r h = (h', Ret v) ∧ ser_depth m h' v = true.
Proof.
  intros Hraw. unfold new_ScanResult. unfold bind at 1.
  destruct (new_ApiEndpoint (endpoint r) h) as [h1 o1] eqn:He.
  assert (∃ e, o1 = Ret e) as [e ->].
  { revert He. unfold new_ApiEndpoint, new_headers, bind, alloc, ret.
    destruct (endpoint_headers (endpoint r)); intros [= <- <-]; eauto. }
  destruct (new_ApiEndpoint_sound _ _ _ _ He) as [[k1 ->] Hse].
  destruct (Hse e eq_refl) as [n1 Hn1].
  unfold bind at 1.
  destruct (Array_map new_TestResult (results r) (h ++ k1)) as [h2 o2] eqn:Hr.
  assert (∃ rs, o2 = Ret rs) as [rs ->].
  { clear -Hr. revert Hr. generalize (h ++ k1). revert h2 o2.
    induction (results r) as [|x l IH]; intros h2 o2 h0; simpl.
    - intros [= <- <-]. eauto.
    - unfold bind at 1. unfold new_TestResult at 1, alloc at 1.
      unfold bind at 1. destruct (Array_map new_TestResult l _) as [h3 o3] eqn:Hl.
      destruct (IH _ _ _ Hl) as [ys ->]. unfold ret. intros [= <- <-]. eauto. }
  destruct (Array_map_sound _ _ _ _ _ new_TestResult_sound Hr) as [[k2 ->] Hrs].
  destruct (Hrs rs eq_refl) as [_ [n2 Hn2]].
  unfold bind, alloc. eexists _, _, (S (S ((n `max` n1) `max` n2)))%nat. split; [done|].
  apply alloc_sound. cbn [forallb snd]. rewrite !andb_true_iff. repeat split; try done.
  - eapply ser_depth_mono; [|apply ser_depth_ext, ser_depth_ext, Hn1]. lia.
  - cbn [ser_depth]. rewrite list_lookup_middle by done. apply forallb_ser_ext.
    eapply forallb_ser_mono; [|done]. lia.
  - apply ser_depth_ext. rewrite <- app_assoc. apply ser_depth_ext.
    eapply ser_depth_mono; [|done]. lia.
  - by destruct (statusCode r).
Qed.

Lemma makeSerializable_keeps d n v h :
  ser_depth n h v = true → makeSerializable (S d) v h = (h, Ret v).
Proof.
  intros Hs. rewrite makeSerializable_unfold.
  destruct (is_nullish v); [done|].
  destruct (proj2 (JSON_stringify_ok h v)) as [s ->]; eauto.
Qed.

(** ** The initial request *)

Lemma error_object_ser error h :
  error_object error h = (h ++ [JObject [("error", JStr (message error))]], Ret (JRef (length h)))
  ∧ ser_depth 1 (h ++ [JObject [("error", JStr (message error))]]) (JRef (length h)) = true.
Proof. split; [done|]. by apply alloc_sound. Qed.

Lemma initial_request_returns env endpoint h :
  ∃ h1 sent sc raw n,
    initial_request env endpoint h = (h1, sent, Ret (sc, raw)) ∧ ser_depth n h1 raw = true.
Proof.
  unfold initial_request, guard, net_try, net_bind, net_pure, net_lift, net_ret, axios_call.
  set (parsed := match body endpoint with
                 | Some b => if String.eqb b "" then Ret None
                             else match JSON_parse b with
                                  | Ret v => Ret (Some v)
                                  | Throw e => Throw e
                                  end
                 | None => Ret None
                 end).
  destruct parsed as [d|e].
  2:{ destruct (error_object_ser e h) as [-> Hs]. eexists _, _, _, _, _; split; [reflexivity|eassumption]. }
  destruct (axios env InitialRequest _ h) as [h1 [resp|e]].
  2:{ destruct (error_object_ser e h1) as [-> Hs]. eexists _, _, _, _, _; split; [reflexivity|eassumption]. }
  destruct (makeSerializable (call_stack env) (data resp) h1) as [h2 [raw|e]] eqn:Hg.
  - destruct (makeSerializable_sound _ _ _ _ _ Hg) as [_ Hr].
    destruct (Hr raw eq_refl) as [n Hn]. eexists _, _, _, _, _; split; [reflexivity|eassumption].
  - destruct (error_object_ser e h2) as [-> Hs]. eexists _, _, _, _, _; split; [reflexivity|eassumption].
Qed.

(** ** The orchestrator returns the report it assembled *)

Lemma testPromise_fulfilled endpoint test :
  testPromise endpoint test = ((run test endpoint).1, Ret (finding endpoint test)).
Proof.
  unfold testPromise, finding. by destruct (run test endpoint) as [sent [r|e]].
Qed.

Lemma runApiTest_over_returns env tests endpoint selectedTests h :
  (0 < call_stack env)%nat →
  ∃ h1 sent0 initial h' v,
    initial_request env endpoint h = (h1, sent0, Ret initial) ∧
    new_ScanResult
      (report env endpoint (finding endpoint <$> testsToRun tests selectedTests) initial) h1
      = (h', Ret v) ∧
    runApiTest_over env tests endpoint selectedTests h
      = (h', sent0 ++ requests_of endpoint (testsToRun tests selectedTests), Ret v).
Proof.
  intros Hstack.
  destruct (initial_request_returns env endpoint h) as (h1 & sent0 & sc & raw & n & Hi & Hn).
  destruct (new_ScanResult_returns
    (report env endpoint (finding endpoint <$> testsToRun tests selectedTests) (sc, raw)) h1 n Hn)
    as (h' & v & m & Hnew & Hm).
  exists h1, sent0, (sc, raw), h', v. split; [done|]. split; [done|].
  unfold runApiTest_over. unfold net_bind at 1. rewrite Hi.
  unfold net_bind at 1.
  rewrite <- !list_fmap_compose.
  erewrite (list_fmap_ext (snd ∘ testPromise endpoint) (Ret ∘ finding endpoint));
    [|intros i test _; simpl; by rewrite testPromise_fulfilled].
  rewrite (list_fmap_compose (finding endpoint) Ret).
  rewrite Promise_all_fulfilled.
  erewrite (list_fmap_ext (fst ∘ testPromise endpoint) (λ test, (run test endpoint).1));
    [|intros i test _; simpl; by rewrite testPromise_fulfilled].
  unfold net_bind at 1, net_lift at 1.
  unfold report in Hnew. cbn [fst snd] in Hnew. rewrite Hnew.
  unfold guard, net_lift. destruct (call_stack env) as [|d]; [lia|].
  rewrite (makeSerializable_keeps d m v h' Hm).
  unfold requests_of. by rewrite !app_nil_r.
Qed.

(** ** Reasoning on [Net] computations *)

Lemma returns_only_ret {A} (P : A → Prop) a : P a → returns_only P (net_ret a).
Proof. intros HP h h' sent a' [= _ _ <-]. done. Qed.

Lemma returns_only_throw {A} (P : A → Prop) e : returns_only P (net_throw e).
Proof. by intros h h' sent a'. Qed.

Lemma returns_only_bind {A B} (P : B → Prop) (m : Net A) (k : A → Net B) :
  (∀ a, returns_only P (k a)) → returns_only P (net_bind m k).
Proof.
  intros Hk h h' sent b. unfold net_bind.
  destruct (m h) as [[h1 s1] [a|e]]; [|done].
  destruct (k a h1) as [[h2 s2] o] eqn:Hka. intros [= _ _ ->]. by eapply Hk.
Qed.

Lemma returns_only_try {A} (P : A → Prop) (m : Net A) handler :
  returns_only P m → (∀ e, returns_only P (handler e)) → returns_only P (net_try m handler).
Proof.
  intros Hm Hh h h' sent b. unfold net_try.
  destruct (m h) as [[h1 s1] [a|e]] eqn:Hmh.
  - intros [= _ _ <-]. by eapply Hm.
  - destruct (handler e h1) as [[h2 s2] o] eqn:Hhe. intros [= _ _ ->]. by eapply Hh.
Qed.

Lemma returns_only_pure {A} (P : A → Prop) (f : heap → outcome A) :
  (∀ h a, f h = Ret a → P a) → returns_only P (λ h, (h, [], f h)).
Proof. intros Hf h h' sent a [= _ _ Ha]. by eapply Hf. Qed.

Lemma total_try {A} (m : Net A) handler : (∀ e, total (handler e)) → total (net_try m handler).
Proof.
  intros Hh h. unfold net_try. destruct (m h) as [[h1 s1] [a|e]]; [by eexists _, _, _|].
  destruct (Hh e h1) as (h2 & s2 & a & ->). by eexists _, _, _.
Qed.

Lemma total_ret {A} (a : A) : total (net_ret a).
Proof. intros h. by eexists _, _, _. Qed.

Lemma total_settle {A} (m : Net A) : total (net_settle m).
Proof. intros h. unfold net_settle. destruct (m h) as [[h1 s1] o]. by eexists _, _, _. Qed.

Lemma sends_ret {A} (a : A) : sends [] (net_ret a).
Proof. done. Qed.

Lemma sends_throw {A} e : sends [] (@net_throw A e).
Proof. done. Qed.

Lemma sends_pure {A} (f : heap → outcome A) : sends [] (λ h, (h, [], f h)).
Proof. done. Qed.

Lemma sends_lift {A} (m : Js A) : sends [] (net_lift m).
Proof. intros h. unfold net_lift. by destruct (m h). Qed.

Lemma sends_bind {A B} l (m : Net A) (k : A → Net B) :
  sends l m → (∀ a, sends [] (k a)) → sends l (net_bind m k).
Proof.
  intros Hm Hk h. unfold net_bind. specialize (Hm h).
  destruct (m h) as [[h1 s1] [a|e]]; simpl in *; [|done].
  specialize (Hk a h1). destruct (k a h1) as [[h2 s2] o]; simpl in *.
  subst. by rewrite app_nil_r.
Qed.

Lemma sends_bind_total {A B} l1 l2 (m : Net A) (k : A → Net B) :
  sends l1 m → total m → (∀ a, sends l2 (k a)) → sends (l1 ++ l2) (net_bind m k).
Proof.
  intros Hm Ht Hk h. unfold net_bind. specialize (Hm h).
  destruct (Ht h) as (h1 & s1 & a & Hr). rewrite Hr in *. simpl in Hm.
  specialize (Hk a h1). destruct (k a h1) as [[h2 s2] o]; simpl in *. by subst.
Qed.

Lemma sends_try {A} l (m : Net A) handler :
  sends l m → (∀ e, sends [] (handler e)) → sends l (net_try m handler).
Proof.
  intros Hm Hk h. unfold net_try. specialize (Hm h).
  destruct (m h) as [[h1 s1] [a|e]]; simpl in *; [done|].
  specialize (Hk e h1). destruct (handler e h1) as [[h2 s2] o]; simpl in *.
  subst. by rewrite app_nil_r.
Qed.

Lemma sends_settle {A} l (m : Net A) : sends l m → sends l (net_settle m).
Proof. intros Hm h. unfold net_settle. specialize (Hm h). by destruct (m h) as [[h1 s1] o]. Qed.

Lemma total_bind {A B} (m : Net A) (k : A → Net B) :
  total m → (∀ a, total (k a)) → total (net_bind m k).
Proof.
  intros Hm Hk h. unfold net_bind. destruct (Hm h) as (h1 & s1 & a & ->).
  destruct (Hk a h1) as (h2 & s2 & b & ->). by eexists _, _, _.
Qed.

Lemma net_map_total_sends {A B} (f : A → Net B) (g : A → list Request) (l : list A) :
  (∀ x, total (f x)) → (∀ x, sends (g x) (f x)) →
  total (net_map f l) ∧ sends (concat (g <$> l)) (net_map f l).
Proof.
  intros Ht Hs. induction l as [|x l [IHt IHs]]; [split; [apply total_ret|apply sends_ret]|].
  cbn [net_map]. split.
  - apply total_bind; [apply Ht|]. intros y. apply total_bind; [done|]. intros ys. apply total_ret.
  - rewrite fmap_cons. cbn [concat]. apply sends_bind_total; [apply Hs|apply Ht|].
    intros y. apply sends_bind; [done|]. intros ys. apply sends_ret.
Qed.

Lemma sends_axios env site config : sends [(site, config)] (axios_call env site config).
Proof. intros h. unfold axios_call. by destruct (axios env site config h). Qed.

Lemma sends_guard env v : sends [] (guard env v).
Proof. apply sends_lift. Qed.

Ltac sends_nothing :=
  repeat first
    [ apply sends_ret | apply sends_throw | apply sends_pure | apply sends_lift
    | apply sends_guard
    | apply sends_bind; [|intros ?]
    | match goal with |- sends _ (if ?b then _ else _) => destruct b end
    | match goal with |- sends _ (match ?o with Some _ => _ | None => _ end) => destruct o end ].

(** The request helper issues the one request it is given, whether the
    call succeeds, is turned into a pseudo-response, or is thrown again. *)
Lemma sends_safeAxiosRequest env site config :
  sends [(site, config)] (safeAxiosRequest env site config).
Proof.
  unfold safeAxiosRequest. apply sends_try; [apply sends_axios|].
  intros e. destruct (isAxiosError e); sends_nothing.
Qed.

Lemma settle_sends {A} l (m : Net A) : sends l m → (settle m).1 = l.
Proof. intros Hm. unfold settle. specialize (Hm []). by destruct (m []) as [[h s] o]. Qed.

Lemma settle_total {A} (P : A → Prop) (m : Net A) :
  total m → returns_only P m → ∃ a, (settle m).2 = Ret a ∧ P a.
Proof.
  intros Ht HP. unfold settle. destruct (Ht []) as (h & s & a & Hr). rewrite Hr.
  exists a. split; [done|]. by eapply HP.
Qed.

Ltac probe_total := apply total_try; intros ?; apply total_ret.

Ltac names_only :=
  repeat first
    [ apply returns_only_ret; reflexivity
    | apply returns_only_throw
    | apply returns_only_try; [|intros ?]
    | apply returns_only_bind; intros ?
    | match goal with |- returns_only _ (if ?b then _ else _) => destruct b end
    | match goal with |- returns_only _ (match ?o with Some _ => _ | None => _ end) =>
        destruct o end ].

Lemma authenticationTest_named env endpoint :
  total (authenticationTest_run env endpoint) ∧
  returns_only (λ r, name r = "Authentication Check") (authenticationTest_run env endpoint).
Proof. split; [probe_total|]. unfold authenticationTest_run. names_only. Qed.

Lemma sensitive_report_named s : name (sensitive_report s) = "Sensitive Data Exposure".
Proof. unfold sensitive_report. by destruct (0 <? _)%nat. Qed.

Lemma sensitiveDataTest_named env endpoint :
  total (sensitiveDataTest_run env endpoint) ∧
  returns_only (λ r, name r = "Sensitive Data Exposure") (sensitiveDataTest_run env endpoint).
Proof.
  split; [probe_total|]. unfold sensitiveDataTest_run. names_only.
  apply returns_only_ret, sensitive_report_named.
Qed.

Lemma cors_report_named h o c r : cors_report h o c = Ret r → name r = "CORS Configuration".
Proof.
  unfold cors_report. repeat case_match; intros [= <-]; done.
Qed.

Lemma corsTest_named env endpoint :
  total (corsTest_run env endpoint) ∧
  returns_only (λ r, name r = "CORS Configuration") (corsTest_run env endpoint).
Proof.
  split; [probe_total|]. unfold corsTest_run. names_only.
  apply returns_only_pure. intros h r. apply cors_report_named.
Qed.

Lemma headers_report_named l : name (headers_report l) = "Security Headers".
Proof. unfold headers_report. by repeat case_match. Qed.

Lemma securityHeadersTest_named env endpoint :
  total (securityHeadersTest_run env endpoint) ∧
  returns_only (λ r, name r = "Security Headers") (securityHeadersTest_run env endpoint).
Proof.
  split; [probe_total|]. unfold securityHeadersTest_run. names_only.
  apply returns_only_ret, headers_report_named.
Qed.

Lemma rate_limit_report_named h t l : name (rate_limit_report h t l) = "Rate Limiting".
Proof. unfold rate_limit_report. by repeat case_match. Qed.

Lemma rateLimitTest_named env endpoint :
  total (rateLimitTest_run env endpoint) ∧
  returns_only (λ r, name r = "Rate Limiting") (rateLimitTest_run env endpoint).
Proof.
  split; [probe_total|]. unfold rateLimitTest_run. names_only.
  apply returns_only_pure. intros h r [= <-]. apply rate_limit_report_named.
Qed.

(** Each registered probe returns a finding under its own name and never
    rejects. *)
Lemma allTests_named env endpoint test :
  test ∈ allTests env →
  ∃ r, (run test endpoint).2 = Ret r ∧ name r = test_name test.
Proof.
  unfold allTests. rewrite !elem_of_cons, elem_of_nil.
  intros [->|[->|[->|[->|[->|[]]]]]]; cbn [run test_name authenticationTest sensitiveDataTest
    corsTest securityHeadersTest rateLimitTest];
    apply settle_total.
  - apply authenticationTest_named. - apply authenticationTest_named.
  - apply sensitiveDataTest_named. - apply sensitiveDataTest_named.
  - apply corsTest_named. - apply corsTest_named.
  - apply securityHeadersTest_named. - apply securityHeadersTest_named.
  - apply rateLimitTest_named. - apply rateLimitTest_named.
Qed.

Lemma finding_named env endpoint test :
  test ∈ allTests env → name (finding endpoint test) = test_name test.
Proof.
  intros Hin. destruct (allTests_named env endpoint test Hin) as (r & Hr & Hn).
  unfold finding. by rewrite Hr.
Qed.

(** ** The requests of the probes *)

Lemma authenticationTest_sends env endpoint :
  (run (authenticationTest env) endpoint).1 = [(AuthRequest, auth_request endpoint)].
Proof.
  apply settle_sends. unfold authenticationTest_run.
  apply sends_try; [|intros e; apply sends_ret].
  apply sends_bind; [apply sends_safeAxiosRequest|]. intros r. sends_nothing.
Qed.

Lemma sensitiveDataTest_sends env endpoint :
  (run (sensitiveDataTest env) endpoint).1 = [(SensitiveDataRequest, replay endpoint)].
Proof.
  apply settle_sends. unfold sensitiveDataTest_run.
  apply sends_try; [|intros e; apply sends_ret].
  apply sends_bind; [apply sends_safeAxiosRequest|]. intros r. sends_nothing.
Qed.

Lemma corsTest_sends env endpoint :
  (run (corsTest env) endpoint).1 = [(CorsRequest, cors_request endpoint)].
Proof.
  apply settle_sends. unfold corsTest_run.
  apply sends_try; [|intros e; apply sends_ret].
  apply sends_bind; [apply sends_safeAxiosRequest|]. intros r. unfold header. sends_nothing.
Qed.

Lemma securityHeadersTest_sends env endpoint :
  (run (securityHeadersTest env) endpoint).1 = [(SecurityHeadersRequest, replay endpoint)].
Proof.
  apply settle_sends. unfold securityHeadersTest_run.
  apply sends_try; [|intros e; apply sends_ret].
  apply sends_bind; [apply sends_safeAxiosRequest|]. intros r.
  unfold securityHeaderNames, header. cbn [net_map]. sends_nothing.
Qed.

Lemma rateLimitTest_sends env endpoint :
  (run (rateLimitTest env) endpoint).1
  = (λ i, (RateLimitRequest i, replay endpoint)) <$> seq 0 5.
Proof.
  apply settle_sends. unfold rateLimitTest_run.
  apply sends_try; [|intros e; apply sends_ret].
  apply sends_bind; [|intros rs; unfold net_pure; sends_nothing].
  eapply (net_map_total_sends _ (λ i, [(RateLimitRequest i, replay endpoint)])).
  - intros i. apply total_settle.
  - intros i. apply sends_settle, sends_safeAxiosRequest.
Qed.

(** ** Selection *)

Lemma filter_ids_length (S ids : list string) :
  NoDup S → NoDup ids → S ⊆ ids → length (filter (λ i, i ∈ S) ids) = length S.
Proof.
  intros HS Hids Hsub. apply Permutation_length, NoDup_Permutation; [by apply NoDup_filter|done|].
  intros x. rewrite list_elem_of_filter. split; [by intros []|]. intros Hx. split; [done|].
  by apply Hsub.
Qed.

Lemma registry_of_allTests env :
  (λ test, (id test, test_name test)) <$> allTests env = registry.
Proof. reflexivity. Qed.

Lemma filter_fmap_comm {A B} (f : A → B) (P : B → Prop) `{∀ x, Decision (P x)} (l : list A) :
  f <$> filter (λ x, P (f x)) l = filter P (f <$> l).
Proof.
  induction l as [|x l IH]; [done|]. rewrite fmap_cons, !filter_cons.
  case_decide; [rewrite fmap_cons|]; by rewrite IH.
Qed.

Lemma testsToRun_registry env (selectedTests : list string) :
  (λ test, (id test, test_name test)) <$> testsToRun (allTests env) selectedTests
  = match selectedTests with
    | [] => registry
    | _ => filter (λ p, p.1 ∈ selectedTests) registry
    end.
Proof.
  unfold testsToRun. destruct selectedTests as [|s l]; [done|].
  cbn [length Nat.ltb Nat.leb].
  rewrite <- (registry_of_allTests env).
  by rewrite <- (filter_fmap_comm (λ test, (id test, test_name test))
                   (λ p, p.1 ∈ s :: l) (allTests env)).
Qed.

Lemma testsToRun_subset tests selectedTests test :
  test ∈ testsToRun tests selectedTests → test ∈ tests.
Proof.
  unfold testsToRun. destruct (0 <? _)%nat; [|done]. by intros [_ ?]%list_elem_of_filter.
Qed.

Lemma findings_named env endpoint selectedTests :
  name <$> (finding endpoint <$> testsToRun (allTests env) selectedTests)
  = snd <$> ((λ test, (id test, test_name test)) <$> testsToRun (allTests env) selectedTests).
Proof.
  rewrite <- !list_fmap_compose. apply list_fmap_ext. intros i test Hi. simpl.
  apply (finding_named env). eapply testsToRun_subset. by eapply list_elem_of_lookup_2.
Qed.

(** C1: for a selection that is a set of registered ids, the scan returns
    the report it assembled, with one finding per resolved probe (five
    for the empty selection), in registry order and under the probes'
    names, whatever the environment, so whatever the order in which the
    probes complete. *)
Theorem runApiTest_one_finding_per_probe (env : Env) (endpoint : ApiEndpoint)
    (S : list string) (h : heap) :
  NoDup S → S ⊆ registry.*1 → (0 < call_stack env)%nat →
  ∃ h1 sent initial findings h' v,
    runApiTest env endpoint S h = (h', sent, Ret v) ∧
    new_ScanResult (report env endpoint findings initial) h1 = (h', Ret v) ∧
    length findings = (if decide (S = []) then 5%nat else length S) ∧
    name <$> findings = (filter (λ p, S = [] ∨ p.1 ∈ S) registry).*2.
Proof.
  intros HS Hsub Hstack.
  destruct (runApiTest_over_returns env (allTests env) endpoint S h Hstack)
    as (h1 & sent0 & initial & h' & v & Hi & Hnew & Hrun).
  eexists h1, _, initial, _, h', v. split; [exact Hrun|]. split; [exact Hnew|].
  assert (Hreg := testsToRun_registry env S). split.
  - rewrite length_fmap.
    rewrite <- (length_fmap (λ test, (id test, test_name test))), Hreg.
    destruct S as [|s l]; [done|]. rewrite decide_False by done.
    pose proof (filter_fmap_comm fst (λ i, i ∈ s :: l) registry) as Hc.
    apply (f_equal length) in Hc. rewrite length_fmap in Hc. etrans; [exact Hc|].
    apply filter_ids_length; [done| |done].
    apply (bool_decide_unpack _). by vm_compute.
  - rewrite findings_named, Hreg. destruct S as [|s l]; f_equal; try done.
    apply list_filter_iff. intros p. split; [by right|]. by intros [|].
Qed.

(** ** Sample environments and endpoints *)

Lemma runApiTest_one_finding_per_probe_witness :
  NoDup ["cors-check"; "auth-check"] ∧
  ["cors-check"; "auth-check"] ⊆ registry.*1 ∧
  (0 < call_stack open_server)%nat ∧
  ∃ h1 sent initial findings h' v,
    runApiTest open_server plain_endpoint ["cors-check"; "auth-check"] [] = (h', sent, Ret v) ∧
    new_ScanResult (report open_server plain_endpoint findings initial) h1 = (h', Ret v) ∧
    length findings = 2%nat ∧
    name <$> findings = ["Authentication Check"; "CORS Configuration"].
Proof.
  assert (NoDup ["cors-check"; "auth-check"]) as Hnd
    by (apply (bool_decide_unpack _); exact I).
  assert (["cors-check"; "auth-check"] ⊆ registry.*1) as Hsub
    by (apply (bool_decide_unpack _); exact I).
  assert (0 < call_stack open_server)%nat as Hstack by (simpl; lia).
  split; [exact Hnd|]. split; [exact Hsub|]. split; [exact Hstack|].
  exact (runApiTest_one_finding_per_probe open_server plain_endpoint
           ["cors-check"; "auth-check"] [] Hnd Hsub Hstack).
Defined.

(** C7: a probe whose run raises leaves the synthetic warning at its own
    place in the findings; every other place holds what its own probe
    returned, in the order of the resolved probes, and the scan returns
    the complete report. *)
Theorem runApiTest_isolates_failing_probe (env : Env) (tests : list SecurityTest)
    (endpoint : ApiEndpoint) (selectedTests : list string) (h : heap) :
  (0 < call_stack env)%nat →
  ∃ h1 sent initial findings h' v,
    runApiTest_over env tests endpoint selectedTests h = (h', sent, Ret v) ∧
    new_ScanResult (report env endpoint findings initial) h1 = (h', Ret v) ∧
    length findings = length (testsToRun tests selectedTests) ∧
    ∀ i test, testsToRun tests selectedTests !! i = Some test →
      findings !! i =
        Some match (run test endpoint).2 with
             | Ret r => r
             | Throw error =>
                 {| name := test_name test;
                    result_status := warning;
                    description := "Test execution failed";
                    details := Some (message error);
                    severity := Some medium |}
             end.
Proof.
  intros Hstack.
  destruct (runApiTest_over_returns env tests endpoint selectedTests h Hstack)
    as (h1 & sent0 & initial & h' & v & Hi & Hnew & Hrun).
  eexists h1, _, initial, _, h', v. split; [exact Hrun|]. split; [exact Hnew|].
  split; [by rewrite length_fmap|].
  intros i test Hi'. by rewrite list_lookup_fmap, Hi'.
Qed.

Lemma runApiTest_isolates_failing_probe_witness :
  (0 < call_stack open_server)%nat ∧
  ∃ h1 sent initial findings h' v,
    runApiTest_over open_server [authenticationTest open_server; failing_probe;
                                 corsTest open_server] plain_endpoint [] []
      = (h', sent, Ret v) ∧
    new_ScanResult (report open_server plain_endpoint findings initial) h1 = (h', Ret v) ∧
    length findings = 3%nat ∧
    findings !! 1%nat =
      Some {| name := "Failing Probe";
              result_status := warning;
              description := "Test execution failed";
              details := Some "boom";
              severity := Some medium |}.
Proof.
  assert (0 < call_stack open_server)%nat as Hstack by (simpl; lia).
  split; [exact Hstack|].
  destruct (runApiTest_isolates_failing_probe open_server
              [authenticationTest open_server; failing_probe; corsTest open_server]
              plain_endpoint [] [] Hstack)
    as (h1 & sent & initial & findings & h' & v & Hrun & Hnew & Hlen & Hat).
  exists h1, sent, initial, findings, h', v.
  split; [exact Hrun|]. split; [exact Hnew|]. split; [exact Hlen|].
  exact (Hat 1%nat failing_probe eq_refl).
Defined.

(** C10: with a non-empty selection list the scan raises nothing and the
    findings are those of the registered probes whose id occurs in the
    list, once each and in registry order; an id that matches no probe
    adds nothing, a repeated id adds nothing more. *)
Theorem runApiTest_ignores_unknown_ids (env : Env) (endpoint : ApiEndpoint)
    (selectedTests : list string) (h : heap) :
  selectedTests ≠ [] → (0 < call_stack env)%nat →
  ∃ h1 sent initial findings h' v,
    runApiTest env endpoint selectedTests h = (h', sent, Ret v) ∧
    new_ScanResult (report env endpoint findings initial) h1 = (h', Ret v) ∧
    name <$> findings = (filter (λ p, p.1 ∈ selectedTests) registry).*2.
Proof.
  intros Hne Hstack.
  destruct (runApiTest_over_returns env (allTests env) endpoint selectedTests h Hstack)
    as (h1 & sent0 & initial & h' & v & Hi & Hnew & Hrun).
  eexists h1, _, initial, _, h', v. split; [exact Hrun|]. split; [exact Hnew|].
  rewrite findings_named, testsToRun_registry. by destruct selectedTests.
Qed.

Lemma runApiTest_ignores_unknown_ids_witness :
  ["rate-limit"; "no-such-test"; "cors-check"; "rate-limit"] ≠ [] ∧
  (0 < call_stack unreachable)%nat ∧
  ∃ h1 sent initial findings h' v,
    runApiTest unreachable plain_endpoint
      ["rate-limit"; "no-such-test"; "cors-check"; "rate-limit"] [] = (h', sent, Ret v) ∧
    new_ScanResult (report unreachable plain_endpoint findings initial) h1 = (h', Ret v) ∧
    name <$> findings = ["CORS Configuration"; "Rate Limiting"].
Proof.
  assert (0 < call_stack unreachable)%nat as Hstack by (simpl; lia).
  split; [discriminate|]. split; [exact Hstack|].
  exact (runApiTest_ignores_unknown_ids unreachable plain_endpoint
           ["rate-limit"; "no-such-test"; "cors-check"; "rate-limit"] []
           ltac:(discriminate) Hstack).
Defined.

(** ** Request-construction errors *)

Lemma request_data_invalid endpoint b e :
  body endpoint = Some b → b ≠ "" → JSON_parse b = Throw e →
  request_data endpoint = Some JSnull.
Proof.
  intros Hb Hne Hp. unfold request_data, safeJsonParse. rewrite Hb, Hp.
  destruct (String.eqb_spec b ""); done.
Qed.

Lemma allTests_sends env endpoint test :
  test ∈ allTests env →
  Forall (λ req : Request, req.1 ≠ InitialRequest ∧
            (config_data req.2 = request_data endpoint ∨ config_data req.2 = None))
         (run test endpoint).1.
Proof.
  unfold allTests. rewrite !elem_of_cons, elem_of_nil.
  intros [->|[->|[->|[->|[->|[]]]]]].
  - rewrite authenticationTest_sends. apply Forall_singleton. split; [done|by left].
  - rewrite sensitiveDataTest_sends. apply Forall_singleton. split; [done|by left].
  - rewrite corsTest_sends. apply Forall_singleton. split; [done|by right].
  - rewrite securityHeadersTest_sends. apply Forall_singleton. split; [done|by left].
  - rewrite rateLimitTest_sends. apply Forall_fmap, Forall_forall.
    intros i _. split; [done|by left].
Qed.

Lemma initial_request_invalid_body env endpoint h b e :
  body endpoint = Some b → b ≠ "" → JSON_parse b = Throw e →
  initial_request env endpoint h
  = (h ++ [JObject [("error", JStr (message e))]], [], Ret (None, JRef (length h))).
Proof.
  intros Hb Hne Hp. unfold initial_request, net_try, net_bind, net_pure.
  rewrite Hb, Hp. by destruct (String.eqb_spec b "").
Qed.

(** C5, as stated, fails: with a body that is not JSON the scan returns a
    report, sends the nine requests of the probes, and keeps the parse
    error as the report's raw response. *)
Lemma runApiTest_absorbs_invalid_body :
  JSON_parse "not json" = Throw SyntaxError ∧
  ∃ h sent v,
    runApiTest open_server invalid_body_endpoint [] [] = (h, sent, Ret v) ∧
    length sent = 9%nat ∧
    h !! 0%nat = Some (JObject [("error", JStr "Unexpected token in JSON")]).
Proof. split; [reflexivity|]. eexists _, _, _. vm_compute. done. Qed.

(** C5, amended: a body that is present, not empty and not valid JSON
    raises nothing.  The parse error is caught before the initial request
    is sent, so that request is never issued; the error text becomes the
    report's raw response, with no status code; the selected probes still
    run, each request carrying [null] or no body, and the scan returns
    the complete report. *)
Theorem runApiTest_invalid_body_report (env : Env) (endpoint : ApiEndpoint)
    (selectedTests : list string) (h : heap) (b : string) (e : JsError) :
  body endpoint = Some b → b ≠ "" → JSON_parse b = Throw e →
  (0 < call_stack env)%nat →
  ∃ sent findings h' v,
    runApiTest env endpoint selectedTests h = (h', sent, Ret v) ∧
    new_ScanResult (report env endpoint findings (None, JRef (length h)))
                   (h ++ [JObject [("error", JStr (message e))]]) = (h', Ret v) ∧
    length findings = length (testsToRun (allTests env) selectedTests) ∧
    Forall (λ req : Request, req.1 ≠ InitialRequest ∧
              (config_data req.2 = Some JSnull ∨ config_data req.2 = None)) sent.
Proof.
  intros Hb Hne Hp Hstack.
  destruct (runApiTest_over_returns env (allTests env) endpoint selectedTests h Hstack)
    as (h1 & sent0 & initial & h' & v & Hi & Hnew & Hrun).
  rewrite (initial_request_invalid_body env endpoint h b e Hb Hne Hp) in Hi.
  injection Hi as <- <- <-.
  eexists _, _, h', v. split; [exact Hrun|]. split; [exact Hnew|].
  split; [by rewrite length_fmap|].
  cbn [app]. unfold requests_of. apply Forall_concat, Forall_fmap, Forall_forall.
  intros test Hin%testsToRun_subset.
  rewrite <- (request_data_invalid endpoint b e Hb Hne Hp).
  by apply (allTests_sends env).
Qed.

Lemma runApiTest_invalid_body_report_witness :
  body invalid_body_endpoint = Some "not json" ∧ "not json" ≠ "" ∧
  JSON_parse "not json" = Throw SyntaxError ∧ (0 < call_stack unreachable)%nat ∧
  ∃ sent findings h' v,
    runApiTest unreachable invalid_body_endpoint ["auth-check"] [] = (h', sent, Ret v) ∧
    new_ScanResult (report unreachable invalid_body_endpoint findings (None, JRef 0%nat))
                   [JObject [("error", JStr "Unexpected token in JSON")]] = (h', Ret v) ∧
    length findings = 1%nat ∧
    Forall (λ req : Request, req.1 ≠ InitialRequest ∧
              (config_data req.2 = Some JSnull ∨ config_data req.2 = None)) sent.
Proof.
  assert (0 < call_stack unreachable)%nat as Hstack by (simpl; lia).
  split; [reflexivity|]. split; [discriminate|]. split; [reflexivity|]. split; [exact Hstack|].
  exact (runApiTest_invalid_body_report unreachable invalid_body_endpoint ["auth-check"] []
           "not json" SyntaxError eq_refl ltac:(discriminate) eq_refl Hstack).
Defined.

(** ** The authentication probe's request *)

(** C4 fails on the code: a caller's [authorization] header in lower case
    is sent with the probe's request, whatever the environment. *)
Theorem authenticationTest_sends_lowercase_authorization (env : Env) :
  ∃ config,
    (run (authenticationTest env) lowercase_auth_endpoint).1 = [(AuthRequest, config)] ∧
    config_headers config = Some {["authorization" := "Bearer token"]}.
Proof.
  eexists. split; [apply authenticationTest_sends|]. reflexivity.
Qed.

Lemma guard_fresh_object env h props :
  (0 < call_stack env)%nat →
  forallb (λ kv : string * jsval, ser_depth 0 h kv.2) props = true →
  makeSerializable (call_stack env) (JRef (length h)) (h ++ [JObject props])
  = (h ++ [JObject props], Ret (JRef (length h))).
Proof.
  intros Hs Hp. destruct (call_stack env) as [|d]; [lia|].
  apply (makeSerializable_keeps d 1). by apply alloc_object_ser.
Qed.

(** C6: a call that fails with an axios error is never thrown on.  The
    helper returns a pseudo-response: the reported status or 500, the
    reported status text or [Error], the guard's result on the reported
    headers or on a new empty object, the guard's result on the reported
    payload or on a new object holding the error's message. *)
Theorem safeAxiosRequest_transport_failure (env : Env) (site : CallSite)
    (config : AxiosRequestConfig) (h h1 : heap) (error : JsError) (n : nat) :
  axios env site config h = (h1, Throw error) →
  isAxiosError error = true →
  (∀ v, reported_headers error = Some v → finite_depth n h1 v = true) →
  (∀ v, reported_data error = Some v → finite_depth n h1 v = true) →
  (n < call_stack env)%nat →
  ∃ h2 h' pseudo,
    safeAxiosRequest env site config h = (h', [(site, config)], Ret pseudo) ∧
    status pseudo = default 500 (reported_status error) ∧
    statusText pseudo = default "Error" (reported_statusText error) ∧
    match reported_headers error with
    | Some v => makeSerializable (call_stack env) v h1 = (h2, Ret (headers pseudo))
    | None => h2 = h1 ++ [JObject []] ∧ headers pseudo = JRef (length h1)
    end ∧
    match reported_data error with
    | Some v => makeSerializable (call_stack env) v h2 = (h', Ret (data pseudo))
    | None => h' = h2 ++ [JObject [("message", JStr (message error))]] ∧
              data pseudo = JRef (length h2)
    end.
Proof.
  intros Hax Hisax Hhs Hd Hstack.
  assert (0 < call_stack env)%nat as Hpos by lia.
  unfold safeAxiosRequest, net_try, axios_call. rewrite Hax, Hisax.
  unfold reported_status, reported_statusText, reported_headers, reported_data in *.
  (* the headers *)
  assert (∃ h2 hs,
    (hs0 <- match response error with
            | Some r => if truthy (headers r) then net_ret (headers r)
                        else net_lift (alloc (JObject []))
            | None => net_lift (alloc (JObject []))
            end ;; guard env hs0) h1 = (h2, [], Ret hs) ∧
    (∃ k, h2 = h1 ++ k) ∧
    match r ← response error; if truthy (headers r) then Some (headers r) else None with
    | Some v => makeSerializable (call_stack env) v h1 = (h2, Ret hs)
    | None => h2 = h1 ++ [JObject []] ∧ hs = JRef (length h1)
    end) as (h2 & hs & Hrun_hs & [k2 Hk2] & Hspec_hs).
  { unfold net_bind, guard, net_lift, net_ret, alloc.
    destruct (response error) as [r|]; simpl in *; [destruct (truthy (headers r))|].
    - destruct (makeSerializable_returns (call_stack env) n (headers r) h1) as (h2 & hs & Hr);
        [by apply Hhs|done|].
      destruct (makeSerializable_sound _ _ _ _ _ Hr) as [Hext _].
      exists h2, hs. by rewrite Hr.
    - rewrite guard_fresh_object by done. eexists _, _. eauto.
    - rewrite guard_fresh_object by done. eexists _, _. eauto. }
  (* the payload *)
  assert (∃ h' d,
    (d0 <- match response error with
           | Some r => if truthy (data r) then net_ret (data r)
                       else net_lift (alloc (JObject [("message", JStr (message error))]))
           | None => net_lift (alloc (JObject [("message", JStr (message error))]))
           end ;; guard env d0) h2 = (h', [], Ret d) ∧
    match r ← response error; if truthy (data r) then Some (data r) else None with
    | Some v => makeSerializable (call_stack env) v h2 = (h', Ret d)
    | None => h' = h2 ++ [JObject [("message", JStr (message error))]] ∧ d = JRef (length h2)
    end) as (h' & d & Hrun_d & Hspec_d).
  { unfold net_bind, guard, net_lift, net_ret, alloc.
    destruct (response error) as [r|]; simpl in *; [destruct (truthy (data r))|].
    - destruct (makeSerializable_returns (call_stack env) n (data r) h2) as (h' & d & Hr);
        [subst h2; by apply finite_depth_ext, Hd|done|].
      exists h', d. by rewrite Hr.
    - rewrite guard_fresh_object by done. eexists _, _. eauto.
    - rewrite guard_fresh_object by done. eexists _, _. eauto. }
  exists h2, h'. eexists. split.
  - unfold net_bind in *.
    destruct (match response error with
              | Some r => if truthy (headers r) then net_ret (headers r)
                          else net_lift (alloc (JObject []))
              | None => net_lift (alloc (JObject []))
              end h1) as [[ha sa] [hs0|ea]]; [|done].
    destruct (guard env hs0 ha) as [[hb sb] ob]. injection Hrun_hs as -> Hsab ->.
    apply app_eq_nil in Hsab as [-> ->].
    destruct (match response error with
              | Some r => if truthy (data r) then net_ret (data r)
                          else net_lift (alloc (JObject [("message", JStr (message error))]))
              | None => net_lift (alloc (JObject [("message", JStr (message error))]))
              end h2) as [[hc sc] [d0|ec]]; [|done].
    destruct (guard env d0 hc) as [[hd sd] od]. injection Hrun_d as -> Hscd ->.
    apply app_eq_nil in Hscd as [-> ->]. reflexivity.
  - cbn [status statusText headers data]. repeat split; try done.
    + by destruct (response error) as [r|]; simpl; [destruct (status r =? 0)|].
    + by destruct (response error) as [r|]; simpl; [destruct (String.eqb (statusText r) "")|].
Qed.

Lemma safeAxiosRequest_transport_failure_witness :
  ∃ error,
    axios unreachable AuthRequest (auth_request plain_endpoint) [] = ([], Throw error) ∧
    isAxiosError error = true ∧
    (1 < call_stack unreachable)%nat ∧
    ∃ h' pseudo,
      safeAxiosRequest unreachable AuthRequest (auth_request plain_endpoint) []
        = (h', [(AuthRequest, auth_request plain_endpoint)], Ret pseudo) ∧
      status pseudo = 500 ∧ statusText pseudo = "Error" ∧
      h' = [JObject []; JObject [("message", JStr "timeout of 30000ms exceeded")]] ∧
      headers pseudo = JRef 0%nat ∧ data pseudo = JRef 1%nat.
Proof.
  eexists. split; [reflexivity|]. split; [reflexivity|].
  assert (1 < call_stack unreachable)%nat as Hstack by (simpl; lia).
  split; [exact Hstack|].
  destruct (safeAxiosRequest_transport_failure unreachable AuthRequest
              (auth_request plain_endpoint) [] [] _ 1 eq_refl eq_refl
              ltac:(discriminate) ltac:(discriminate) Hstack)
    as (h2 & h' & pseudo & Hrun & Hst & Htxt & [-> Hhs] & [-> Hd]).
  exists ([JObject []] ++ [JObject [("message", JStr "timeout of 30000ms exceeded")]]), pseudo.
  split; [exact Hrun|]. split; [exact Hst|]. split; [exact Htxt|].
  split; [reflexivity|]. split; [exact Hhs|exact Hd].
Defined.

(** ** The CORS decision, on the two headers as text *)

Lemma cors_report_decision h (allowOrigin : option string) (allowCredentials : jsval) :
  cors_report h (from_option JStr JUndefined allowOrigin) allowCredentials
  = Ret (cors_decision allowOrigin (bool_decide (allowCredentials = JStr "true"))).
Proof.
  unfold cors_report, cors_decision. destruct allowOrigin as [origin|]; simpl; [|done].
  destruct (decide (origin = "*")) as [->|Hne].
  - rewrite bool_decide_eq_true_2 by done. by destruct (bool_decide _).
  - rewrite bool_decide_eq_false_2 by congruence. simpl.
    destruct (String_includes origin _); [done|].
    destruct (decide (origin = "")) as [->|Hne']; [done|].
    destruct (String.eqb_spec origin ""); [done|]. simpl.
    unfold template. by destruct (length h).
Qed.

(** C8, as stated, fails: an allowed origin that holds the host of the
    injected origin under another scheme does not contain the injected
    origin, is neither absent nor the wildcard, and yet is not passed. *)
Lemma cors_report_flags_other_scheme :
  String_includes "http://malicious-site.example.com" "https://malicious-site.example.com"
    = false ∧
  cors_report [] (JStr "http://malicious-site.example.com") JUndefined
    = Ret {| name := "CORS Configuration"; result_status := failed;
             description := "CORS validation issue";
             details := Some "API accepts requests from untrusted origins";
             severity := Some high |}.
Proof. split; reflexivity. Qed.

(** C8, amended: on the preflight response the probe decides, first match
    first: Allow-Origin exactly [*] with Allow-Credentials [true] is
    failed/high; exactly [*] otherwise is warning/medium; Allow-Origin
    containing the text [malicious-site.example.com] (the host of the
    injected origin) is failed/high; Allow-Origin absent or empty is
    passed; any other value is passed with details echoing it. *)
Theorem corsTest_decision (env : Env) (endpoint : ApiEndpoint) (h h1 : heap)
    (preflight : AxiosResponse) (a : addr) (props : list (string * jsval))
    (allowOrigin : option string) :
  axios env CorsRequest (cors_request endpoint) h = (h1, Ret preflight) →
  headers preflight = JRef a →
  h1 !! a = Some (JObject props) →
  get_prop "access-control-allow-origin" props = from_option JStr JUndefined allowOrigin →
  corsTest_run env endpoint h
  = (h1, [(CorsRequest, cors_request endpoint)],
     Ret (cors_decision allowOrigin
            (bool_decide (get_prop "access-control-allow-credentials" props = JStr "true")))).
Proof.
  intros Hax Hhs Ha Hao.
  unfold corsTest_run, net_try, net_bind at 1, safeAxiosRequest, net_try, axios_call.
  fold (cors_request endpoint). rewrite Hax.
  unfold net_bind, header, get_member. rewrite Hhs, Ha, Hao.
  by rewrite cors_report_decision.
Qed.

Lemma corsTest_decision_witness :
  corsTest_run (reflecting_server "https://malicious-site.example.com.evil.org")
    plain_endpoint []
  = ([JObject [("access-control-allow-origin",
                JStr "https://malicious-site.example.com.evil.org");
               ("access-control-allow-credentials", JStr "true")]],
     [(CorsRequest, cors_request plain_endpoint)],
     Ret {| name := "CORS Configuration"; result_status := failed;
            description := "CORS validation issue";
            details := Some "API accepts requests from untrusted origins";
            severity := Some high |}).
Proof.
  exact (corsTest_decision (reflecting_server "https://malicious-site.example.com.evil.org")
           plain_endpoint [] _ _ 0%nat _
           (Some "https://malicious-site.example.com.evil.org")
           eq_refl eq_refl eq_refl eq_refl).
Defined.

(** ** The sensitive-data scan *)

Lemma String_match_nonempty str pattern ms :
  String_match str pattern = Some ms → (0 <? length ms)%nat = true.
Proof.
  unfold String_match. destruct (match_all _ _ _ _); [done|]. by intros [= <-].
Qed.

Lemma scan_fold responseStr (table : list (regex * string)) (acc : list string) :
  foldl (λ findings '(pattern, type),
           match String_match responseStr pattern with
           | Some matches =>
               if (0 <? length matches)%nat then findings ++ [finding_line type]
               else findings
           | None => findings
           end) acc table
  = acc ++ (finding_line <$>
              (snd <$> filter (λ p, is_Some (String_match responseStr p.1)) table)).
Proof.
  revert acc. induction table as [|[pattern type] table IH]; intros acc.
  { by rewrite app_nil_r. }
  cbn [foldl]. rewrite filter_cons. cbn [fst].
  destruct (String_match responseStr pattern) as [ms|] eqn:Hm.
  - rewrite (String_match_nonempty _ _ _ Hm), IH.
    rewrite decide_True by done. by rewrite <- app_assoc.
  - rewrite IH. by rewrite decide_False by (by intros []).
Qed.

Lemma scan_patterns_matched responseStr :
  scan_patterns responseStr = finding_line <$> matched_types responseStr.
Proof. apply (scan_fold responseStr sensitivePatterns []). Qed.

Lemma sensitive_report_matched responseStr :
  sensitive_report responseStr =
    match finding_line <$> matched_types responseStr with
    | [] =>
        {| name := "Sensitive Data Exposure"; result_status := passed;
           description := "No obvious sensitive data found in response";
           details := None; severity := None |}
    | lines =>
        {| name := "Sensitive Data Exposure"; result_status := failed;
           description := "API may be exposing sensitive data";
           details := Some (join newline lines); severity := Some high |}
    end.
Proof.
  unfold sensitive_report. rewrite scan_patterns_matched.
  by destruct (finding_line <$> matched_types responseStr).
Qed.

(** C9: on the text of the sanitized response body the probe reports one
    line per pattern of the table that matches at least once, in table
    order, however often the pattern matches: with such a line the
    finding is failed/high and its details are the lines joined by
    newlines, with none it is passed. *)
Theorem sensitiveDataTest_lines (env : Env) (endpoint : ApiEndpoint) (h h1 h2 : heap)
    (reply : AxiosResponse) (safeData : jsval) (responseStr : string) :
  axios env SensitiveDataRequest (replay endpoint) h = (h1, Ret reply) →
  makeSerializable (call_stack env) (data reply) h1 = (h2, Ret safeData) →
  JSON_stringify h2 safeData = Ret (Some responseStr) →
  sensitiveDataTest_run env endpoint h
  = (h2, [(SensitiveDataRequest, replay endpoint)],
     Ret match finding_line <$> matched_types responseStr with
         | [] =>
             {| name := "Sensitive Data Exposure"; result_status := passed;
                description := "No obvious sensitive data found in response";
                details := None; severity := None |}
         | lines =>
             {| name := "Sensitive Data Exposure"; result_status := failed;
                description := "API may be exposing sensitive data";
                details := Some (join newline lines); severity := Some high |}
         end) ∧
  matched_types responseStr `sublist_of` sensitivePatterns.*2 ∧
  NoDup (finding_line <$> sensitivePatterns.*2).
Proof.
  intros Hax Hg Hs. split; [|split].
  - unfold sensitiveDataTest_run, net_try, net_bind at 1, safeAxiosRequest, net_try, axios_call.
    rewrite Hax. unfold net_bind, guard, net_lift. rewrite Hg, Hs.
    unfold net_ret. by rewrite sensitive_report_matched.
  - unfold matched_types. apply fmap_sublist, sublist_filter.
  - apply (bool_decide_unpack _). by vm_compute.
Qed.

Lemma sensitiveDataTest_lines_witness :
  ∃ h2 responseStr,
    h2 = open_server_store ∧
    JSON_stringify h2 (JRef 1%nat) = Ret (Some responseStr) ∧
    matched_types responseStr = ["password"] ∧
    sensitiveDataTest_run open_server plain_endpoint []
    = (h2, [(SensitiveDataRequest, replay plain_endpoint)],
       Ret {| name := "Sensitive Data Exposure"; result_status := failed;
              description := "API may be exposing sensitive data";
              details := Some "Found possible password data in response";
              severity := Some high |}).
Proof.
  exists open_server_store. eexists. split; [reflexivity|].
  split; [vm_compute; reflexivity|]. split; [by vm_compute|].
  exact (proj1 (sensitiveDataTest_lines open_server plain_endpoint [] _ _ _ _ _
                  eq_refl eq_refl eq_refl)).
Defined.

(** ** Further properties of the guard *)

(** X1: the guard never changes an object it was given: the store it
    leaves is the store it got, followed by the objects it created,
    whether it returns or raises. *)
Theorem makeSerializable_only_allocates (stack : nat) (v : jsval) (h h' : heap)
    (o : outcome jsval) :
  makeSerializable stack v h = (h', o) → ∃ created, h' = h ++ created.
Proof. intros H. by destruct (makeSerializable_sound stack v h h' o H). Qed.

Lemma makeSerializable_only_allocates_witness :
  ∃ h' o created,
    makeSerializable 3 (JRef 0%nat) self_object = (h', o) ∧ h' = self_object ++ created.
Proof.
  eexists _, _. 
  destruct (makeSerializable_only_allocates 3 (JRef 0%nat) self_object _ _ eq_refl)
    as [created Hc].
  exists created. split; [reflexivity|exact Hc].
Defined.

(** X2: a value [JSON.stringify] accepts is returned as it is, with the
    store untouched, also when it holds fields the encoding drops. *)
Theorem makeSerializable_keeps_encodable (stack : nat) (v : jsval) (h : heap)
    (s : option string) :
  JSON_stringify h v = Ret s → makeSerializable (S stack) v h = (h, Ret v).
Proof.
  intros Hs. rewrite makeSerializable_unfold, Hs. by destruct (is_nullish v).
Qed.

Lemma makeSerializable_keeps_encodable_witness :
  JSON_stringify function_field (JRef 0%nat) = Ret (Some "{}") ∧
  makeSerializable 1 (JRef 0%nat) function_field = (function_field, Ret (JRef 0%nat)).
Proof.
  split; [reflexivity|].
  exact (makeSerializable_keeps_encodable 0 (JRef 0%nat) function_field (Some "{}") eq_refl).
Defined.

(** X3: on a plain object the guard never raises, whatever the object
    reaches (a cycle, a BigInt) and however shallow the stack below the
    first call: a failure under a key is caught at that key. *)
Theorem makeSerializable_object_returns (stack : nat) (a : addr) (h : heap)
    (props : list (string * jsval)) :
  h !! a = Some (JObject props) →
  ∃ h' r, makeSerializable (S stack) (JRef a) h = (h', Ret r).
Proof.
  intros Ha. rewrite makeSerializable_unfold. cbn [is_nullish].
  destruct (JSON_stringify h (JRef a)); [by eexists _, _|]. rewrite Ha.
  unfold bind.
  destruct (sanitize_props (makeSerializable stack) props [] h) as [h1 o1] eqn:Hm.
  assert (∃ n, forallb (λ kv : string * jsval, ser_depth n h kv.2) [] = true) as H0
    by (by exists O).
  destruct (sanitize_props_sound _ _ _ _ _ _ (makeSerializable_sound stack) H0 Hm)
    as [_ (res & -> & _)].
  by eexists _, _.
Qed.

Lemma makeSerializable_object_returns_witness :
  self_object !! 0%nat = Some (JObject [("self", JRef 0%nat); ("big", JBigInt 7)]) ∧
  ∃ h' r, makeSerializable 1 (JRef 0%nat) self_object = (h', Ret r).
Proof.
  split; [reflexivity|].
  exact (makeSerializable_object_returns 0 0%nat self_object _ eq_refl).
Defined.

Lemma set_prop_keys key v (props : list (string * jsval)) :
  key ∉ props.*1 → (set_prop key v props).*1 = props.*1 ++ [key].
Proof.
  induction props as [|[k w] props IH]; [done|]. cbn [set_prop fmap list_fmap fst].
  intros [Hne Hnin]%not_elem_of_cons. rewrite decide_False by done.
  cbn [fmap list_fmap fst app]. f_equal. by apply IH.
Qed.

Lemma sanitize_props_keys f props result h h' res :
  NoDup (result.*1 ++ props.*1) →
  sanitize_props f props result h = (h', Ret res) →
  res.*1 = result.*1 ++ props.*1.
Proof.
  revert result h. induction props as [|[key value] props IH]; intros result h Hnd.
  { intros [= _ <-]. by rewrite app_nil_r. }
  cbn [sanitize_props]. unfold bind at 1, try_catch at 1.
  assert (key ∉ result.*1) as Hfresh.
  { apply NoDup_app in Hnd as (_ & Hdisj & _). intros Hin. apply (Hdisj key Hin). by left. }
  assert (NoDup ((result.*1 ++ [key]) ++ props.*1)) as Hnd'.
  { by rewrite <- app_assoc. }
  destruct (f value h) as [h1 [y|e]]; unfold ret; intros Hrest;
    apply IH in Hrest; rewrite ?set_prop_keys in * by done; try done;
    by rewrite Hrest, <- app_assoc.
Qed.

(** X4: what the guard rebuilds keeps its shape: in place of an array it
    does not keep, it returns a new array of the same length; in place of
    an object (with distinct keys) a new object with the same keys in the
    same order. *)
Theorem makeSerializable_keeps_shape (stack : nat) (a : addr) (h h' : heap) (r : jsval)
    (e : JsError) :
  JSON_stringify h (JRef a) = Throw e →
  makeSerializable (S stack) (JRef a) h = (h', Ret r) →
  match h !! a with
  | Some (JArray items) =>
      ∃ h1 items', h' = h1 ++ [JArray items'] ∧ r = JRef (length h1) ∧
                   length items' = length items
  | Some (JObject props) =>
      NoDup props.*1 →
      ∃ h1 props', h' = h1 ++ [JObject props'] ∧ r = JRef (length h1) ∧
                   props'.*1 = props.*1
  | None => h' = h ++ [JObject []] ∧ r = JRef (length h)
  end.
Proof.
  intros Hs. rewrite makeSerializable_unfold, Hs. cbn [is_nullish].
  destruct (h !! a) as [[items|props]|].
  - unfold bind. destruct (Array_map (makeSerializable stack) items h) as [h1 [rs|e']] eqn:Hm;
      [|done].
    destruct (Array_map_sound _ _ _ _ _ (makeSerializable_sound stack) Hm) as [_ Hrs].
    destruct (Hrs rs eq_refl) as [Hlen _]. intros [= <- <-]. by eexists _, _.
  - unfold bind.
    destruct (sanitize_props (makeSerializable stack) props [] h) as [h1 [res|e']] eqn:Hm;
      [|done].
    intros [= <- <-] Hnd. eexists _, _. split; [done|]. split; [done|].
    by apply (sanitize_props_keys _ _ [] _ _ _ Hnd Hm).
  - by intros [= <- <-].
Qed.

Lemma makeSerializable_keeps_shape_witness :
  ∃ h1 props',
    makeSerializable 2 (JRef 0%nat) self_object = (h1 ++ [JObject props'], Ret (JRef (length h1)))
    ∧ props'.*1 = ["self"; "big"].
Proof.
  assert (NoDup ["self"; "big"]) as Hnd by (apply (bool_decide_unpack _); exact I).
  destruct (makeSerializable_keeps_shape 1 0%nat self_object _ _ _ eq_refl eq_refl Hnd)
    as (h1 & props' & Hh & Hr & Hkeys).
  exists h1, props'. split; [|exact Hkeys].
  rewrite <- Hh, <- Hr. reflexivity.
Defined.

(** ** Further properties of the probes *)

(** X5: the authentication probe issues exactly one request, to the
    endpoint's URL with its method and body; its headers are the
    caller's without the keys [Authorization], [x-api-key] and [api-key]
    (as spelled), every other key with its value. *)
Theorem authenticationTest_request (env : Env) (endpoint : ApiEndpoint) :
  ∃ config hs,
    (run (authenticationTest env) endpoint).1 = [(AuthRequest, config)] ∧
    config_method config = Method_to_string (method endpoint) ∧
    config_url config = url endpoint ∧
    config_data config = request_data endpoint ∧
    config_headers config = Some hs ∧
    ∀ key, hs !! key =
      if decide (key ∈ ["Authorization"; "x-api-key"; "api-key"]) then None
      else default ∅ (endpoint_headers endpoint) !! key.
Proof.
  eexists _, _. split; [apply authenticationTest_sends|]. repeat split.
  intros key. unfold strip_auth. case_decide as Hk.
  - rewrite !elem_of_cons, elem_of_nil in Hk.
    destruct Hk as [->|[->|[->|[]]]]; by simplify_map_eq.
  - rewrite !not_elem_of_cons in Hk. destruct Hk as (? & ? & ? & _).
    by rewrite !lookup_delete_ne.
Qed.

(** X6: the authentication probe decides on the status of the answer: a
    status from 200 to 299 is failed/high, 401 and 403 are passed, any
    other status is warning/medium; the details quote the status. *)
Theorem authenticationTest_by_status (env : Env) (endpoint : ApiEndpoint) (h h1 : heap)
    (reply : AxiosResponse) :
  axios env AuthRequest (auth_request endpoint) h = (h1, Ret reply) →
  ∃ r,
    authenticationTest_run env endpoint h = (h1, [(AuthRequest, auth_request endpoint)], Ret r) ∧
    name r = "Authentication Check" ∧
    (result_status r, severity r) =
      (if decide (200 ≤ status reply < 300) then (failed, Some high)
       else if decide (status reply = 401 ∨ status reply = 403) then (passed, None)
       else (warning, Some medium)) ∧
    ∃ before after, details r = Some (before +:+ Z_to_string (status reply) +:+ after).
Proof.
  intros Hax.
  unfold authenticationTest_run, net_try, net_bind, safeAxiosRequest, net_try, axios_call.
  fold (auth_request endpoint). rewrite Hax.
  destruct (decide (200 ≤ status reply < 300)) as [Hr|Hr].
  - rewrite (proj2 (Z.leb_le _ _)), (proj2 (Z.ltb_lt _ _)) by lia. simpl.
    eexists. repeat split. by eexists _, _.
  - assert ((200 <=? status reply) && (status reply <? 300) = false) as ->.
    { apply andb_false_iff. rewrite Z.leb_gt, Z.ltb_ge. lia. }
    destruct (decide (status reply = 401 ∨ status reply = 403)) as [Ha|Ha].
    + assert ((status reply =? 401) || (status reply =? 403) = true) as ->.
      { apply orb_true_iff. rewrite !Z.eqb_eq. done. }
      simpl. eexists. repeat split. by eexists _, _.
    + assert ((status reply =? 401) || (status reply =? 403) = false) as ->.
      { apply orb_false_iff. rewrite !Z.eqb_neq. lia. }
      simpl. eexists. repeat split. by eexists _, _.
Qed.

Lemma authenticationTest_by_status_witness :
  ∃ h1 r,
    authenticationTest_run (fixed_server 403 []) plain_endpoint []
      = (h1, [(AuthRequest, auth_request plain_endpoint)], Ret r) ∧
    name r = "Authentication Check" ∧
    (result_status r, severity r) = (passed, None) ∧
    ∃ before after, details r = Some (before +:+ "403" +:+ after).
Proof.
  destruct (authenticationTest_by_status (fixed_server 403 []) plain_endpoint [] _ _ eq_refl)
    as (r & Hrun & Hname & Hst & Hdet).
  eexists _, r. split; [exact Hrun|]. split; [exact Hname|]. split; [exact Hst|exact Hdet].
Defined.

(** X7: the CORS probe issues exactly one request: an [OPTIONS] request
    to the endpoint's URL without a body, whose headers are the caller's
    with [Origin] set to the injected origin and
    [Access-Control-Request-Method] to the endpoint's method, both
    replacing a header of the caller under the same key. *)
Theorem corsTest_request (env : Env) (endpoint : ApiEndpoint) :
  ∃ config hs,
    (run (corsTest env) endpoint).1 = [(CorsRequest, config)] ∧
    config_method config = "OPTIONS" ∧
    config_url config = url endpoint ∧
    config_data config = None ∧
    config_headers config = Some hs ∧
    hs !! "Origin" = Some "https://malicious-site.example.com" ∧
    hs !! "Access-Control-Request-Method" = Some (Method_to_string (method endpoint)) ∧
    ∀ key, key ≠ "Origin" → key ≠ "Access-Control-Request-Method" →
           hs !! key = default ∅ (endpoint_headers endpoint) !! key.
Proof.
  eexists _, _. split; [apply corsTest_sends|]. repeat split.
  - by simplify_map_eq.
  - by simplify_map_eq.
  - intros key H1 H2. by simplify_map_eq.
Qed.

(** X8: the rate-limit probe issues exactly five requests, all equal to
    the endpoint's own request, whatever the answers are. *)
Theorem rateLimitTest_burst (env : Env) (endpoint : ApiEndpoint) :
  (run (rateLimitTest env) endpoint).1
  = [(RateLimitRequest 0, replay endpoint); (RateLimitRequest 1, replay endpoint);
     (RateLimitRequest 2, replay endpoint); (RateLimitRequest 3, replay endpoint);
     (RateLimitRequest 4, replay endpoint)].
Proof. apply rateLimitTest_sends. Qed.

(** X9: the security-headers probe counts the headers of its table that
    the answer lacks (absent or empty): none is passed, one or two are
    warning/medium, three or more are failed/high, and the details list
    the lacking headers in table order. *)
Theorem securityHeadersTest_by_count (env : Env) (endpoint : ApiEndpoint) (h h1 : heap)
    (reply : AxiosResponse) (a : addr) (props : list (string * jsval)) :
  axios env SecurityHeadersRequest (replay endpoint) h = (h1, Ret reply) →
  headers reply = JRef a →
  h1 !! a = Some (JObject props) →
  securityHeadersTest_run env endpoint h
  = (h1, [(SecurityHeadersRequest, replay endpoint)],
     Ret match missing_headers props with
         | [] =>
             {| name := "Security Headers"; result_status := passed;
                description := "All recommended security headers are present";
                details := None; severity := None |}
         | [_] | [_; _] =>
             {| name := "Security Headers"; result_status := warning;
                description := "Some recommended security headers are missing";
                details := Some ("Missing headers: " +:+ join ", " (missing_headers props));
                severity := Some medium |}
         | _ =>
             {| name := "Security Headers"; result_status := failed;
                description := "Multiple important security headers are missing";
                details := Some ("Missing headers: " +:+ join ", " (missing_headers props));
                severity := Some high |}
         end).
Proof.
  intros Hax Hhs Ha.
  unfold securityHeadersTest_run, net_try, net_bind at 1, safeAxiosRequest, net_try, axios_call.
  rewrite Hax. unfold securityHeaderNames. cbn [net_map].
  unfold net_bind, header, get_member, net_ret. rewrite Hhs.
  repeat (rewrite Ha; cbn beta iota zeta). cbn [app fst snd].
  unfold headers_report, missing_headers, securityHeaderNames.
  rewrite !filter_cons, !filter_nil. cbn [fst snd].
  destruct (truthy (get_prop "strict-transport-security" props));
    destruct (truthy (get_prop "content-security-policy" props));
    destruct (truthy (get_prop "x-content-type-options" props));
    destruct (truthy (get_prop "x-frame-options" props));
    destruct (truthy (get_prop "x-xss-protection" props)); reflexivity.
Qed.

Lemma securityHeadersTest_by_count_witness :
  ∃ h1,
    securityHeadersTest_run
      (fixed_server 200 [("strict-transport-security", JStr "max-age=63072000");
                         ("x-frame-options", JStr "DENY");
                         ("x-content-type-options", JStr "")])
      plain_endpoint []
    = (h1, [(SecurityHeadersRequest, replay plain_endpoint)],
       Ret {| name := "Security Headers"; result_status := failed;
              description := "Multiple important security headers are missing";
              details := Some "Missing headers: Content-Security-Policy, X-Content-Type-Options, X-XSS-Protection";
              severity := Some high |}).
Proof.
  eexists.
  exact (securityHeadersTest_by_count
           (fixed_server 200 [("strict-transport-security", JStr "max-age=63072000");
                              ("x-frame-options", JStr "DENY");
                              ("x-content-type-options", JStr "")])
           plain_endpoint [] _ _ 0%nat _ eq_refl eq_refl eq_refl).
Defined.

(** X10: an answer without a body leaves the sensitive-data probe nothing
    to search: the text of the body is [undefined], the search on it
    raises, and the probe reports warning/medium with the error's text. *)
Theorem sensitiveDataTest_without_body (env : Env) (endpoint : ApiEndpoint) (h h1 : heap)
    (reply : AxiosResponse) :
  axios env SensitiveDataRequest (replay endpoint) h = (h1, Ret reply) →
  data reply = JUndefined →
  ∃ text,
    sensitiveDataTest_run env endpoint h
    = (h1, [(SensitiveDataRequest, replay endpoint)],
       Ret {| name := "Sensitive Data Exposure"; result_status := warning;
              description := "Error occurred during sensitive data test";
              details := Some text; severity := Some medium |}).
Proof.
  intros Hax Hd.
  unfold sensitiveDataTest_run, net_try, net_bind at 1, safeAxiosRequest, net_try, axios_call.
  rewrite Hax. unfold net_bind, guard, net_lift. rewrite Hd.
  destruct (call_stack env) as [|d]; simpl; by eexists.
Qed.

Lemma sensitiveDataTest_without_body_witness :
  ∃ h1 text,
    sensitiveDataTest_run bodiless_server plain_endpoint []
    = (h1, [(SensitiveDataRequest, replay plain_endpoint)],
       Ret {| name := "Sensitive Data Exposure"; result_status := warning;
              description := "Error occurred during sensitive data test";
              details := Some text; severity := Some medium |}).
Proof.
  eexists.
  exact (sensitiveDataTest_without_body bodiless_server plain_endpoint [] _ _ eq_refl eq_refl).
Defined.

(** The pseudo-response for a failure that reports nothing. *)
Lemma safeAxiosRequest_no_response env site config h error :
  axios env site config h = (h, Throw error) →
  isAxiosError error = true → response error = None →
  (0 < call_stack env)%nat →
  safeAxiosRequest env site config h
  = (h ++ [JObject []; JObject [("message", JStr (message error))]],
     [(site, config)],
     Ret {| status := 500; statusText := "Error";
            headers := JRef (length h); data := JRef (S (length h)) |}).
Proof.
  intros Hax Hisax Hresp Hstack.
  unfold safeAxiosRequest, net_try, axios_call. rewrite Hax, Hisax, Hresp.
  unfold net_bind, guard, net_lift, net_ret, alloc.
  rewrite guard_fresh_object by done.
  rewrite (guard_fresh_object env (h ++ [JObject []])
             [("message", JStr (message error))] Hstack eq_refl).
  rewrite <- app_assoc, length_app. cbn [length app].
  by replace (length h + 1)%nat with (S (length h)) by lia.
Qed.

Lemma Promise_all_rejected {A} (settle : nat → Z) (n : nat) (e : JsError) :
  @Promise_all A settle (replicate (S n) (Throw e)) = Throw e.
Proof.
  unfold Promise_all. rewrite length_replicate.
  pose proof (merge_sort_Permutation (settles_before settle) (seq 0 (S n))) as Hp.
  unfold completion_order.
  destruct (merge_sort (settles_before settle) (seq 0 (S n))) as [|i order] eqn:Ho.
  { apply Permutation_length in Hp. by rewrite length_seq in Hp. }
  assert (i ∈ seq 0 (S n)) as Hi by (rewrite <- Hp; by left).
  apply elem_of_seq in Hi. cbn [collect].
  by rewrite lookup_replicate_2 by lia.
Qed.

Ltac burst_fulfilled :=
  match goal with
  | |- context [Promise_all ?s [Ret ?a; Ret ?b; Ret ?c; Ret ?d; Ret ?e]] =>
      change (Promise_all s [Ret a; Ret b; Ret c; Ret d; Ret e])
        with (Promise_all s (Ret <$> [a; b; c; d; e]));
      rewrite Promise_all_fulfilled
  end.

(** ** The probes when the network fails *)

(** X11: when every call fails with an axios error that reports nothing
    (a host that cannot be reached), the findings do not all become
    warnings: the authentication probe reports warning/medium on the
    status 500 of the pseudo-response, the CORS probe reports passed, the
    security-headers probe reports failed/high with all five headers
    lacking, the rate-limit probe reports warning/low. *)
Theorem probes_on_unreachable_host (env : Env) (endpoint : ApiEndpoint) (error : JsError) :
  (∀ site config h, axios env site config h = (h, Throw error)) →
  isAxiosError error = true → response error = None →
  (0 < call_stack env)%nat →
  (run (authenticationTest env) endpoint).2
    = Ret {| name := "Authentication Check"; result_status := warning;
             description := "Unexpected response when testing authentication";
             details := Some "Received status code 500 which is neither a success nor an auth error";
             severity := Some medium |} ∧
  (run (corsTest env) endpoint).2
    = Ret {| name := "CORS Configuration"; result_status := passed;
             description := "No CORS headers found or CORS is properly restricted";
             details := None; severity := None |} ∧
  (run (securityHeadersTest env) endpoint).2
    = Ret {| name := "Security Headers"; result_status := failed;
             description := "Multiple important security headers are missing";
             details := Some "Missing headers: Strict-Transport-Security, Content-Security-Policy, X-Content-Type-Options, X-Frame-Options, X-XSS-Protection";
             severity := Some high |} ∧
  (run (rateLimitTest env) endpoint).2
    = Ret {| name := "Rate Limiting"; result_status := warning;
             description := "Rate limiting status unclear";
             details := Some "Could not definitively determine if rate limiting is implemented";
             severity := Some low |}.
Proof.
  intros Hax Hisax Hresp Hstack.
  assert (Hsafe := λ site config h,
    safeAxiosRequest_no_response env site config h error (Hax site config h) Hisax Hresp Hstack).
  repeat split.
  - cbn [run authenticationTest]. unfold settle, authenticationTest_run, net_try, net_bind.
    by rewrite Hsafe.
  - cbn [run corsTest]. unfold settle, corsTest_run, net_try, net_bind at 1.
    by rewrite Hsafe.
  - cbn [run securityHeadersTest]. unfold settle, securityHeadersTest_run, net_try, net_bind at 1.
    by rewrite Hsafe.
  - cbn [run rateLimitTest]. unfold settle, rateLimitTest_run, net_try, net_bind at 1.
    cbn [net_map seq]. unfold net_bind, net_settle.
    repeat (rewrite Hsafe; cbn beta iota zeta).
    unfold net_ret, net_pure.
    burst_fulfilled. cbn [snd]. unfold rate_limit_report. cbn [existsb status orb Z.eqb].
    cbn [forallb status Z.ltb Z.compare Pos.compare Pos.compare_cont andb].
    rewrite andb_false_r. simpl. reflexivity.
Qed.

Lemma probes_on_unreachable_host_witness :
  (run (corsTest unreachable) plain_endpoint).2
    = Ret {| name := "CORS Configuration"; result_status := passed;
             description := "No CORS headers found or CORS is properly restricted";
             details := None; severity := None |}.
Proof.
  assert (0 < call_stack unreachable)%nat as Hstack by (simpl; lia).
  exact (proj1 (proj2 (probes_on_unreachable_host unreachable plain_endpoint _
                         (λ _ _ _, eq_refl) eq_refl eq_refl Hstack))).
Defined.

(** X12: an error that is not an axios error is thrown on by the request
    helper and caught by each probe, which reports a warning with the
    error's message: of severity medium for the authentication and the
    sensitive-data probe, low for the CORS, the security-headers and the
    rate-limit probe. *)
Theorem probes_catch_client_errors (env : Env) (endpoint : ApiEndpoint) (error : JsError) :
  (∀ site config h, axios env site config h = (h, Throw error)) →
  isAxiosError error = false →
  (λ test, (run test endpoint).2) <$> allTests env
  = [Ret {| name := "Authentication Check"; result_status := warning;
            description := "Error occurred during authentication test";
            details := Some (message error); severity := Some medium |};
     Ret {| name := "Sensitive Data Exposure"; result_status := warning;
            description := "Error occurred during sensitive data test";
            details := Some (message error); severity := Some medium |};
     Ret {| name := "CORS Configuration"; result_status := warning;
            description := "Error occurred during CORS test";
            details := Some (message error); severity := Some low |};
     Ret {| name := "Security Headers"; result_status := warning;
            description := "Error occurred during security headers test";
            details := Some (message error); severity := Some low |};
     Ret {| name := "Rate Limiting"; result_status := warning;
            description := "Error occurred during rate limit test";
            details := Some (message error); severity := Some low |}].
Proof.
  intros Hax Hisax.
  assert (Hsafe : ∀ site config h,
    safeAxiosRequest env site config h = (h, [(site, config)], Throw error)).
  { intros. unfold safeAxiosRequest, net_try, axios_call. by rewrite Hax, Hisax. }
  unfold allTests. cbn [fmap list_fmap run authenticationTest sensitiveDataTest corsTest
    securityHeadersTest rateLimitTest].
  repeat f_equal.
  - unfold settle, authenticationTest_run, net_try, net_bind. by rewrite Hsafe.
  - unfold settle, sensitiveDataTest_run, net_try, net_bind at 1. by rewrite Hsafe.
  - unfold settle, corsTest_run, net_try, net_bind at 1. by rewrite Hsafe.
  - unfold settle, securityHeadersTest_run, net_try, net_bind at 1. by rewrite Hsafe.
  - unfold settle, rateLimitTest_run, net_try, net_bind at 1.
    cbn [net_map seq]. unfold net_bind, net_settle.
    repeat (rewrite Hsafe; cbn beta iota zeta).
    unfold net_ret, net_pure.
    pose proof (Promise_all_rejected (A:=AxiosResponse)
                  (λ i, settled_at env (BurstPromise i)) 4 error) as Hrej.
    cbn [replicate] in Hrej. by rewrite Hrej.
Qed.

Lemma probes_catch_client_errors_witness :
  (λ test, result_status <$> match (run test plain_endpoint).2 with
                             | Ret r => Some r
                             | Throw _ => None
                             end) <$> allTests broken_client
  = [Some warning; Some warning; Some warning; Some warning; Some warning].
Proof.
  pose proof (probes_catch_client_errors broken_client plain_endpoint _
                (λ _ _ _, eq_refl) eq_refl) as H.
  apply (f_equal (fmap (λ o, result_status <$> match o with
                                               | Ret r => Some r
                                               | Throw _ => None
                                               end))) in H.
  rewrite <- list_fmap_compose in H. exact H.
Defined.



(** ** Further properties of the orchestrator *)

Lemma initial_request_sends env endpoint h :
  body endpoint = None →
  (initial_request env endpoint h).1.2 = [(InitialRequest, replay endpoint)].
Proof.
  intros Hb.
  unfold initial_request, guard, net_try, net_bind, net_pure, net_lift, net_ret, axios_call.
  rewrite Hb. unfold replay, request_data. rewrite Hb.
  match goal with |- context [axios env InitialRequest ?c h] =>
    destruct (axios env InitialRequest c h) as [h1 [reply|e]] end; [|done].
  by destruct (makeSerializable (call_stack env) (data reply) h1) as [h2 [raw|e]].
Qed.

(** X14: a full scan of an endpoint without a body issues ten requests,
    in this order: the initial request, the request of the
    authentication probe, of the sensitive-data probe, the CORS
    preflight, the request of the security-headers probe and the five
    requests of the rate-limit burst; it does so whatever the answers
    are. *)
Theorem runApiTest_requests (env : Env) (endpoint : ApiEndpoint) (h : heap) :
  body endpoint = None → (0 < call_stack env)%nat →
  (runApiTest env endpoint [] h).1.2
  = [(InitialRequest, replay endpoint);
     (AuthRequest, auth_request endpoint);
     (SensitiveDataRequest, replay endpoint);
     (CorsRequest, cors_request endpoint);
     (SecurityHeadersRequest, replay endpoint);
     (RateLimitRequest 0, replay endpoint); (RateLimitRequest 1, replay endpoint);
     (RateLimitRequest 2, replay endpoint); (RateLimitRequest 3, replay endpoint);
     (RateLimitRequest 4, replay endpoint)].
Proof.
  intros Hb Hstack.
  destruct (runApiTest_over_returns env (allTests env) endpoint [] h Hstack)
    as (h1 & sent0 & initial & h' & v & Hi & Hnew & Hrun).
  unfold runApiTest. rewrite Hrun. cbn [fst snd].
  pose proof (initial_request_sends env endpoint h Hb) as Hs. rewrite Hi in Hs.
  cbn [fst snd] in Hs. subst sent0.
  unfold requests_of, testsToRun, allTests. cbn [length Nat.ltb Nat.leb fmap list_fmap concat].
  rewrite authenticationTest_sends, sensitiveDataTest_sends, corsTest_sends,
    securityHeadersTest_sends, rateLimitTest_sends. reflexivity.
Qed.

Lemma runApiTest_requests_witness :
  length (runApiTest broken_client plain_endpoint [] []).1.2 = 10%nat.
Proof.
  assert (0 < call_stack broken_client)%nat as Hstack by (simpl; lia).
  rewrite (runApiTest_requests broken_client plain_endpoint [] eq_refl Hstack).
  reflexivity.
Defined.

(** X15: a failure of the initial request does not abort the scan: its
    message becomes the report's raw response, the report has no status
    code, and the selected probes are run all the same. *)
Theorem runApiTest_initial_failure (env : Env) (endpoint : ApiEndpoint)
    (selectedTests : list string) (h h1 : heap) (error : JsError) :
  body endpoint = None →
  axios env InitialRequest (replay endpoint) h = (h1, Throw error) →
  (0 < call_stack env)%nat →
  ∃ sent findings h' v,
    runApiTest env endpoint selectedTests h = (h', sent, Ret v) ∧
    new_ScanResult (report env endpoint findings (None, JRef (length h1)))
                   (h1 ++ [JObject [("error", JStr (message error))]]) = (h', Ret v) ∧
    length findings = length (testsToRun (allTests env) selectedTests).
Proof.
  intros Hb Hax Hstack.
  destruct (runApiTest_over_returns env (allTests env) endpoint selectedTests h Hstack)
    as (h0 & sent0 & initial & h' & v & Hi & Hnew & Hrun).
  assert (initial_request env endpoint h
          = (h1 ++ [JObject [("error", JStr (message error))]],
             [(InitialRequest, replay endpoint)], Ret (None, JRef (length h1)))) as Hinit.
  { unfold initial_request, guard, net_try, net_bind, net_pure, net_lift, net_ret, axios_call.
    rewrite Hb. unfold replay, request_data in *. rewrite Hb in *. by rewrite Hax. }
  rewrite Hinit in Hi. injection Hi as <- <- <-.
  eexists _, _, h', v. split; [exact Hrun|]. split; [exact Hnew|]. by rewrite length_fmap.
Qed.

Lemma runApiTest_initial_failure_witness :
  ∃ sent findings h' v,
    runApiTest broken_client plain_endpoint ["cors-check"] [] = (h', sent, Ret v) ∧
    new_ScanResult (report broken_client plain_endpoint findings (None, JRef 0%nat))
                   [JObject [("error", JStr "Invalid URL")]] = (h', Ret v) ∧
    length findings = 1%nat.
Proof.
  assert (0 < call_stack broken_client)%nat as Hstack by (simpl; lia).
  exact (runApiTest_initial_failure broken_client plain_endpoint ["cors-check"] [] [] _
           eq_refl eq_refl Hstack).
Defined.

(** X16: which probes run depends only on which ids occur in a non-empty
    selection list, not on their order or number of occurrences. *)
Theorem testsToRun_by_membership (tests : list SecurityTest) (S S' : list string) :
  S ≠ [] → S' ≠ [] → (∀ i, i ∈ S ↔ i ∈ S') →
  testsToRun tests S = testsToRun tests S'.
Proof.
  intros HS HS' Hiff. unfold testsToRun.
  destruct S as [|s l]; [done|]. destruct S' as [|s' l']; [done|].
  cbn [length Nat.ltb Nat.leb]. apply list_filter_iff. intros test. apply Hiff.
Qed.

Lemma testsToRun_by_membership_witness :
  testsToRun (allTests open_server) ["rate-limit"; "auth-check"; "rate-limit"]
  = testsToRun (allTests open_server) ["auth-check"; "rate-limit"].
Proof.
  apply testsToRun_by_membership; [discriminate|discriminate|].
  intros i. rewrite !elem_of_cons, !elem_of_nil. tauto.
Defined.

(** X17: when the initial request is answered with a body that
    [JSON.stringify] accepts, the report carries the status of that
    answer as its status code and the body itself as its raw response. *)
Theorem runApiTest_initial_answer (env : Env) (endpoint : ApiEndpoint)
    (selectedTests : list string) (h h1 : heap) (reply : AxiosResponse) (s : option string) :
  body endpoint = None →
  axios env InitialRequest (replay endpoint) h = (h1, Ret reply) →
  JSON_stringify h1 (data reply) = Ret s →
  (0 < call_stack env)%nat →
  ∃ sent findings h' v,
    runApiTest env endpoint selectedTests h = (h', sent, Ret v) ∧
    new_ScanResult (report env endpoint findings (Some (status reply), data reply)) h1
      = (h', Ret v) ∧
    length findings = length (testsToRun (allTests env) selectedTests).
Proof.
  intros Hb Hax Hs Hstack.
  destruct (runApiTest_over_returns env (allTests env) endpoint selectedTests h Hstack)
    as (h0 & sent0 & initial & h' & v & Hi & Hnew & Hrun).
  assert (initial_request env endpoint h
          = (h1, [(InitialRequest, replay endpoint)], Ret (Some (status reply), data reply)))
    as Hinit.
  { unfold initial_request, guard, net_try, net_bind, net_pure, net_lift, net_ret, axios_call.
    rewrite Hb. unfold replay, request_data in *. rewrite Hb in *. rewrite Hax.
    destruct (call_stack env) as [|d]; [lia|].
    destruct (proj1 (JSON_stringify_ok h1 (data reply)) (ex_intro _ s Hs)) as [n Hn].
    by rewrite (makeSerializable_keeps d n (data reply) h1 Hn). }
  rewrite Hinit in Hi. injection Hi as <- <- <-.
  eexists _, _, h', v. split; [exact Hrun|]. split; [exact Hnew|]. by rewrite length_fmap.
Qed.

Lemma runApiTest_initial_answer_witness :
  ∃ sent findings h' v,
    runApiTest open_server plain_endpoint ["auth-check"] [] = (h', sent, Ret v) ∧
    new_ScanResult (report open_server plain_endpoint findings (Some 200, JRef 1%nat))
                   open_server_store = (h', Ret v) ∧
    length findings = 1%nat.
Proof.
  assert (0 < call_stack open_server)%nat as Hstack by (simpl; lia).
  exact (runApiTest_initial_answer open_server plain_endpoint ["auth-check"] [] _ _ _
           eq_refl eq_refl eq_refl Hstack).
Defined.


